(** * speech2braille client: the WebSocket hook, the derived status and the
      braille dot decoder, embedded from the TypeScript sources.

    - [Js]      : the JavaScript values the hook stores and inspects.
    - [Braille] : [getBrailleDots] of BrailleTranslator.tsx / SpeechToBraille.
    - [Hook]    : [useSpeechToBrailleWebSocket] (refs, React state, the
                  sockets and timers of the host) and its handlers.
    - [Status]  : the status expression of the SpeechToBraille component.
    - [View]    : what the two components compute from results, tables and
                  saved preferences. *)

From Stdlib Require Import ZArith String List Bool Lia Sorted.
From stdpp Require Import base list gmap.
Import ListNotations.
Local Open Scope string_scope.
Local Open Scope list_scope.
Local Open Scope Z_scope.
Local Set Warnings "-register-all".

(* ===================================================================== *)
(** * JavaScript values *)
(* ===================================================================== *)

Module Js.

(** What [JSON.parse] can return, plus [undefined] (the value of an absent
    property).  Numbers are the integral ones; the hook never computes with a
    number it receives. *)
Inductive js : Type :=
| Undefined
| Null
| Bool (b : bool)
| Num (z : Z)
| Str (s : string)
| Arr (items : list js)
| Obj (fields : list (string * js)).

(** [ToBoolean]: what [v ? a : b], [v && x] and [if (v)] test. *)
Definition truthy (v : js) : bool :=
  match v with
  | Undefined | Null => false
  | Bool b => b
  | Num z => negb (z =? 0)
  | Str s => negb (String.eqb s "")
  | Arr _ | Obj _ => true
  end.

Fixpoint lookup_field (k : string) (fs : list (string * js)) : js :=
  match fs with
  | [] => Undefined
  | (k', v) :: rest => if String.eqb k k' then v else lookup_field k rest
  end.

(** [v.k] for the keys the hook reads ([type], [message], [config]): a
    TypeError ([None]) on [null] and [undefined], the own property of an
    object, and [undefined] on every other value, whose prototypes define none
    of these keys. *)
Definition prop (v : js) (k : string) : option js :=
  match v with
  | Undefined | Null => None
  | Obj fs => Some (lookup_field k fs)
  | Bool _ | Num _ | Str _ | Arr _ => Some Undefined
  end.

(** [v === 'lit'], the comparison a [switch] over string cases performs. *)
Definition is_str (v : js) (lit : string) : bool :=
  match v with
  | Str s => String.eqb s lit
  | _ => false
  end.

End Js.

(* ===================================================================== *)
(** * Braille dot decoding *)
(* ===================================================================== *)

Module Braille.

(** A JavaScript number as [getBrailleDots] meets it: an integer or NaN. *)
Inductive num : Type :=
| NaN
| Int (z : Z).

(** A string is its sequence of UTF-16 code units. *)
Definition jsstring : Type := list Z.

(** [s.charCodeAt(i)]: NaN past the end. *)
Definition charCodeAt (s : jsstring) (i : nat) : num :=
  match nth_error s i with
  | Some c => Int c
  | None => NaN
  end.

(** [a < b] and [a > b]: false as soon as NaN is involved. *)
Definition lt (a : num) (b : Z) : bool :=
  match a with NaN => false | Int x => x <? b end.

Definition gt (a : num) (b : Z) : bool :=
  match a with NaN => false | Int x => x >? b end.

Definition sub (a : num) (b : Z) : num :=
  match a with NaN => NaN | Int x => Int (x - b) end.

(** [ToInt32]: NaN goes to 0, an integer wraps into [-2^31, 2^31). *)
Definition ToInt32 (a : num) : Z :=
  match a with
  | NaN => 0
  | Int x => (x + 2 ^ 31) mod 2 ^ 32 - 2 ^ 31
  end.

(** [a & mask], as the condition of an [if]: true when the result is not 0. *)
Definition band (a : num) (mask : Z) : bool :=
  negb (Z.land (ToInt32 a) (ToInt32 (Int mask)) =? 0).

(** [dots.push(d)] *)
Definition push (dots : list Z) (d : Z) : list Z := dots ++ [d].

Definition getBrailleDots (char : jsstring) : list Z :=
  let codePoint := charCodeAt char 0 in
  if lt codePoint 0x2800 || gt codePoint 0x28ff then []
  else
    let offset := sub codePoint 0x2800 in
    let dots := [] in
    let dots := if band offset 0x01 then push dots 1 else dots in
    let dots := if band offset 0x02 then push dots 2 else dots in
    let dots := if band offset 0x04 then push dots 3 else dots in
    let dots := if band offset 0x08 then push dots 4 else dots in
    let dots := if band offset 0x10 then push dots 5 else dots in
    let dots := if band offset 0x20 then push dots 6 else dots in
    let dots := if band offset 0x40 then push dots 7 else dots in
    let dots := if band offset 0x80 then push dots 8 else dots in
    dots.

(** The eight dot numbers, in increasing order. *)
Definition all_dots : list Z := [1; 2; 3; 4; 5; 6; 7; 8].

(** Dot [d] is raised in the cell with offset [o]. *)
Definition dot_set (o d : Z) : bool := Z.testbit o (d - 1).

End Braille.

(* ===================================================================== *)
(** * The hook useSpeechToBrailleWebSocket *)
(* ===================================================================== *)

Module Hook.
Import Js.

(** ** The host: sockets, timers, frames *)

(** [WebSocket.readyState] *)
Inductive ReadyState : Type := CONNECTING | OPEN | CLOSING | CLOSED.

(** A timer created by [setTimeout]; the hook has one callback only, the
    reconnection closure of [handleClose]. *)
Inductive TimerState : Type := Pending | Fired | Cleared.

Record Timer : Type := { delay : Z; tstate : TimerState }.

(** What [ws.send] was given: the object handed to [JSON.stringify], or the
    32-bit words of an [ArrayBuffer]. *)
Inductive Outbound : Type :=
| Text (v : js)
| Binary (words : list Z).

(** [event.data] of a message event, by the outcome of [JSON.parse] on it. *)
Inductive payload : Type :=
| Malformed
| Json (v : js).

Definition JSON_parse (d : payload) : option js :=
  match d with
  | Malformed => None
  | Json v => Some v
  end.

(** ** The state of one hook instance *)

Inductive ConnectionStatus : Type :=
| Disconnected | Connecting | Connected | Ready | Error.

Record World : Type := {
  (* refs *)
  wsRef : option nat;
  reconnectTimeoutRef : option nat;
  reconnectAttemptsRef : Z;
  (* React state *)
  connectionStatus : ConnectionStatus;
  error : js;
  isRecording : bool;
  isSpeaking : bool;
  isProcessing : bool;
  result : js;
  accumulatedResults : list js;
  statusInfo : js;
  (* host *)
  sockets : list ReadyState;      (* socket k is entry k *)
  timers : list Timer;            (* timer handle t is entry t - 1 *)
  sent : list (nat * Outbound);   (* every ws.send, oldest first *)
  urlRejected : bool              (* new WebSocket(url) throws *)
}.

Definition initial (rejected : bool) : World :=
  {| wsRef := None; reconnectTimeoutRef := None; reconnectAttemptsRef := 0;
     connectionStatus := Disconnected; error := Null;
     isRecording := false; isSpeaking := false; isProcessing := false;
     result := Null; accumulatedResults := []; statusInfo := Null;
     sockets := []; timers := []; sent := []; urlRejected := rejected |}.

Definition isReady (w : World) : bool :=
  match connectionStatus w with Ready => true | _ => false end.

(** *** Field updates *)

Definition set_wsRef (v : option nat) (w : World) : World :=
  {| wsRef := v; reconnectTimeoutRef := reconnectTimeoutRef w;
     reconnectAttemptsRef := reconnectAttemptsRef w;
     connectionStatus := connectionStatus w; error := error w;
     isRecording := isRecording w; isSpeaking := isSpeaking w;
     isProcessing := isProcessing w; result := result w;
     accumulatedResults := accumulatedResults w; statusInfo := statusInfo w;
     sockets := sockets w; timers := timers w; sent := sent w;
     urlRejected := urlRejected w |}.

Definition set_reconnectTimeoutRef (v : option nat) (w : World) : World :=
  {| wsRef := wsRef w; reconnectTimeoutRef := v;
     reconnectAttemptsRef := reconnectAttemptsRef w;
     connectionStatus := connectionStatus w; error := error w;
     isRecording := isRecording w; isSpeaking := isSpeaking w;
     isProcessing := isProcessing w; result := result w;
     accumulatedResults := accumulatedResults w; statusInfo := statusInfo w;
     sockets := sockets w; timers := timers w; sent := sent w;
     urlRejected := urlRejected w |}.

Definition set_reconnectAttemptsRef (v : Z) (w : World) : World :=
  {| wsRef := wsRef w; reconnectTimeoutRef := reconnectTimeoutRef w;
     reconnectAttemptsRef := v;
     connectionStatus := connectionStatus w; error := error w;
     isRecording := isRecording w; isSpeaking := isSpeaking w;
     isProcessing := isProcessing w; result := result w;
     accumulatedResults := accumulatedResults w; statusInfo := statusInfo w;
     sockets := sockets w; timers := timers w; sent := sent w;
     urlRejected := urlRejected w |}.

Definition setConnectionStatus (v : ConnectionStatus) (w : World) : World :=
  {| wsRef := wsRef w; reconnectTimeoutRef := reconnectTimeoutRef w;
     reconnectAttemptsRef := reconnectAttemptsRef w;
     connectionStatus := v; error := error w;
     isRecording := isRecording w; isSpeaking := isSpeaking w;
     isProcessing := isProcessing w; result := result w;
     accumulatedResults := accumulatedResults w; statusInfo := statusInfo w;
     sockets := sockets w; timers := timers w; sent := sent w;
     urlRejected := urlRejected w |}.

Definition setError (v : js) (w : World) : World :=
  {| wsRef := wsRef w; reconnectTimeoutRef := reconnectTimeoutRef w;
     reconnectAttemptsRef := reconnectAttemptsRef w;
     connectionStatus := connectionStatus w; error := v;
     isRecording := isRecording w; isSpeaking := isSpeaking w;
     isProcessing := isProcessing w; result := result w;
     accumulatedResults := accumulatedResults w; statusInfo := statusInfo w;
     sockets := sockets w; timers := timers w; sent := sent w;
     urlRejected := urlRejected w |}.

Definition setIsRecording (v : bool) (w : World) : World :=
  {| wsRef := wsRef w; reconnectTimeoutRef := reconnectTimeoutRef w;
     reconnectAttemptsRef := reconnectAttemptsRef w;
     connectionStatus := connectionStatus w; error := error w;
     isRecording := v; isSpeaking := isSpeaking w;
     isProcessing := isProcessing w; result := result w;
     accumulatedResults := accumulatedResults w; statusInfo := statusInfo w;
     sockets := sockets w; timers := timers w; sent := sent w;
     urlRejected := urlRejected w |}.

Definition setIsSpeaking (v : bool) (w : World) : World :=
  {| wsRef := wsRef w; reconnectTimeoutRef := reconnectTimeoutRef w;
     reconnectAttemptsRef := reconnectAttemptsRef w;
     connectionStatus := connectionStatus w; error := error w;
     isRecording := isRecording w; isSpeaking := v;
     isProcessing := isProcessing w; result := result w;
     accumulatedResults := accumulatedResults w; statusInfo := statusInfo w;
     sockets := sockets w; timers := timers w; sent := sent w;
     urlRejected := urlRejected w |}.

Definition setIsProcessing (v : bool) (w : World) : World :=
  {| wsRef := wsRef w; reconnectTimeoutRef := reconnectTimeoutRef w;
     reconnectAttemptsRef := reconnectAttemptsRef w;
     connectionStatus := connectionStatus w; error := error w;
     isRecording := isRecording w; isSpeaking := isSpeaking w;
     isProcessing := v; result := result w;
     accumulatedResults := accumulatedResults w; statusInfo := statusInfo w;
     sockets := sockets w; timers := timers w; sent := sent w;
     urlRejected := urlRejected w |}.

Definition setResult (v : js) (w : World) : World :=
  {| wsRef := wsRef w; reconnectTimeoutRef := reconnectTimeoutRef w;
     reconnectAttemptsRef := reconnectAttemptsRef w;
     connectionStatus := connectionStatus w; error := error w;
     isRecording := isRecording w; isSpeaking := isSpeaking w;
     isProcessing := isProcessing w; result := v;
     accumulatedResults := accumulatedResults w; statusInfo := statusInfo w;
     sockets := sockets w; timers := timers w; sent := sent w;
     urlRejected := urlRejected w |}.

(** [setAccumulatedResults] takes an updater of the previous value, as React
    allows; [setAccumulatedResults([])] is the constant updater. *)
Definition setAccumulatedResults (f : list js -> list js) (w : World) : World :=
  {| wsRef := wsRef w; reconnectTimeoutRef := reconnectTimeoutRef w;
     reconnectAttemptsRef := reconnectAttemptsRef w;
     connectionStatus := connectionStatus w; error := error w;
     isRecording := isRecording w; isSpeaking := isSpeaking w;
     isProcessing := isProcessing w; result := result w;
     accumulatedResults := f (accumulatedResults w); statusInfo := statusInfo w;
     sockets := sockets w; timers := timers w; sent := sent w;
     urlRejected := urlRejected w |}.

Definition setStatusInfo (v : js) (w : World) : World :=
  {| wsRef := wsRef w; reconnectTimeoutRef := reconnectTimeoutRef w;
     reconnectAttemptsRef := reconnectAttemptsRef w;
     connectionStatus := connectionStatus w; error := error w;
     isRecording := isRecording w; isSpeaking := isSpeaking w;
     isProcessing := isProcessing w; result := result w;
     accumulatedResults := accumulatedResults w; statusInfo := v;
     sockets := sockets w; timers := timers w; sent := sent w;
     urlRejected := urlRejected w |}.

Definition set_sockets (v : list ReadyState) (w : World) : World :=
  {| wsRef := wsRef w; reconnectTimeoutRef := reconnectTimeoutRef w;
     reconnectAttemptsRef := reconnectAttemptsRef w;
     connectionStatus := connectionStatus w; error := error w;
     isRecording := isRecording w; isSpeaking := isSpeaking w;
     isProcessing := isProcessing w; result := result w;
     accumulatedResults := accumulatedResults w; statusInfo := statusInfo w;
     sockets := v; timers := timers w; sent := sent w;
     urlRejected := urlRejected w |}.

Definition set_timers (v : list Timer) (w : World) : World :=
  {| wsRef := wsRef w; reconnectTimeoutRef := reconnectTimeoutRef w;
     reconnectAttemptsRef := reconnectAttemptsRef w;
     connectionStatus := connectionStatus w; error := error w;
     isRecording := isRecording w; isSpeaking := isSpeaking w;
     isProcessing := isProcessing w; result := result w;
     accumulatedResults := accumulatedResults w; statusInfo := statusInfo w;
     sockets := sockets w; timers := v; sent := sent w;
     urlRejected := urlRejected w |}.

Definition set_sent (v : list (nat * Outbound)) (w : World) : World :=
  {| wsRef := wsRef w; reconnectTimeoutRef := reconnectTimeoutRef w;
     reconnectAttemptsRef := reconnectAttemptsRef w;
     connectionStatus := connectionStatus w; error := error w;
     isRecording := isRecording w; isSpeaking := isSpeaking w;
     isProcessing := isProcessing w; result := result w;
     accumulatedResults := accumulatedResults w; statusInfo := statusInfo w;
     sockets := sockets w; timers := timers w; sent := v;
     urlRejected := urlRejected w |}.

(** ** Host operations *)

Definition is_open (k : nat) (w : World) : bool :=
  match sockets w !! k with
  | Some OPEN => true
  | _ => false
  end.

(** [new WebSocket(url)] when it does not throw: a socket in CONNECTING; its
    handle is its index. *)
Definition newWebSocket (w : World) : nat * World :=
  (length (sockets w), set_sockets (sockets w ++ [CONNECTING]) w).

(** [ws.close()]: starts the closing handshake; the close event comes later. *)
Definition ws_close (k : nat) (w : World) : World :=
  match sockets w !! k with
  | Some CONNECTING | Some OPEN => set_sockets (<[k := CLOSING]> (sockets w)) w
  | _ => w
  end.

Definition ws_send (k : nat) (data : Outbound) (w : World) : World :=
  set_sent (sent w ++ [(k, data)]) w.

(** [setTimeout(callback, ms)]: handles are positive. *)
Definition setTimeout (ms : Z) (w : World) : nat * World :=
  (S (length (timers w)),
   set_timers (timers w ++ [{| delay := ms; tstate := Pending |}]) w).

Definition clearTimeout (t : nat) (w : World) : World :=
  match t with
  | O => w
  | S i =>
    match timers w !! i with
    | Some {| delay := ms; tstate := Pending |} =>
      set_timers (<[i := {| delay := ms; tstate := Cleared |}]> (timers w)) w
    | _ => w
    end
  end.

(** The timers that can still fire, with their handles and delays; [t] is the
    handle of the first entry. *)
Fixpoint pending_from (t : nat) (ts : list Timer) : list (nat * Z) :=
  match ts with
  | [] => []
  | tm :: rest =>
    match tstate tm with
    | Pending => (t, delay tm) :: pending_from (S t) rest
    | _ => pending_from (S t) rest
    end
  end.

Definition pending (w : World) : list (nat * Z) := pending_from 1 (timers w).

(** ** The handlers *)

Notation "w |> f" := (f w) (at level 45, left associativity, only parsing).

(** [v.k] where [v] is known not to be nullish. *)
Definition field (v : js) (k : string) : js :=
  match prop v k with
  | Some x => x
  | None => Undefined
  end.

(** [handleMessage]: an exception of [JSON.parse] or of reading [.type] is
    caught and logged; both happen before any update. *)
Definition handleMessage (data : payload) (w : World) : World :=
  match JSON_parse data with
  | None => w
  | Some message =>
    match prop message "type" with
    | None => w
    | Some ty =>
      if is_str ty "ready" then
        w |> setConnectionStatus Ready
          |> setError Null
          |> set_reconnectAttemptsRef 0
      else if is_str ty "config_updated" then
        w
      else if is_str ty "recording_started" then
        w |> setIsRecording true
          |> setError Null
          |> setAccumulatedResults (fun _ => [])
          |> setResult Null
      else if is_str ty "recording_stopped" then
        w |> setIsRecording false
          |> setIsSpeaking false
      else if is_str ty "speech_started" then
        w |> setIsSpeaking true
      else if is_str ty "speech_ended" then
        w |> setIsSpeaking false
      else if is_str ty "status" then
        w |> setStatusInfo message
      else if is_str ty "processing" then
        w |> setIsProcessing true
      else if is_str ty "result" then
        w |> setResult message
          |> setAccumulatedResults (fun prev => prev ++ [message])
          |> setIsProcessing false
      else if is_str ty "error" then
        w |> setError (field message "message")
          |> setIsProcessing false
      else
        w
    end
  end.

Definition handleError (w : World) : World :=
  w |> setError (Str "Connection error occurred")
    |> setConnectionStatus Error.

(** [ws.onopen] *)
Definition handleOpen (w : World) : World :=
  w |> setConnectionStatus Connected.

Definition connect (w : World) : World :=
  let open :=
    match wsRef w with
    | Some k => is_open k w
    | None => false
    end in
  if open then w
  else
    let w := w |> setConnectionStatus Connecting |> setError Null in
    if urlRejected w then
      w |> setError (Str "Failed to establish connection")
        |> setConnectionStatus Error
    else
      let '(ws, w) := newWebSocket w in
      w |> set_wsRef (Some ws).

(** The closure [handleClose] gives to [setTimeout]. *)
Definition reconnectCallback (w : World) : World :=
  w |> set_reconnectAttemptsRef (reconnectAttemptsRef w + 1)
    |> connect.

Definition reconnectDelay (attempts : Z) : Z :=
  Z.min (1000 * 2 ^ attempts) 10000.

Definition handleClose (w : World) : World :=
  let w := w |> setConnectionStatus Disconnected
             |> setIsRecording false
             |> setIsSpeaking false
             |> setIsProcessing false in
  if reconnectAttemptsRef w <? 5 then
    let delay := reconnectDelay (reconnectAttemptsRef w) in
    let '(t, w) := setTimeout delay w in
    w |> set_reconnectTimeoutRef (Some t)
  else
    w |> setError (Str "Failed to reconnect after multiple attempts").

Definition disconnect (w : World) : World :=
  let w :=
    match reconnectTimeoutRef w with
    | Some (S _ as t) => w |> clearTimeout t |> set_reconnectTimeoutRef None
    | _ => w
    end in
  let w :=
    match wsRef w with
    | Some ws => w |> ws_close ws |> set_wsRef None
    | None => w
    end in
  w |> setConnectionStatus Disconnected
    |> setIsRecording false
    |> setIsSpeaking false
    |> setIsProcessing false.

(** [wsRef.current && wsRef.current.readyState === WebSocket.OPEN], with the
    socket when it holds. *)
Definition openTransport (w : World) : option nat :=
  match wsRef w with
  | Some ws => if is_open ws w then Some ws else None
  | None => None
  end.

Definition startRecordingMessage : Outbound :=
  Text (Obj [("type", Str "start_recording")]).

Definition startRecording (w : World) : World :=
  match openTransport w with
  | None => w |> setError (Str "Not connected to server")
  | Some ws =>
    w |> setResult Null
      |> setStatusInfo Null
      |> ws_send ws startRecordingMessage
  end.

Definition stopRecording (w : World) : World :=
  match openTransport w with
  | None => w
  | Some ws => w |> ws_send ws (Text (Obj [("type", Str "stop_recording")]))
  end.

Definition sendAudioChunk (audioData : list Z) (w : World) : World :=
  match openTransport w with
  | None => w
  | Some ws => w |> ws_send ws (Binary audioData)
  end.

Definition configMessage (config : js) : Outbound :=
  Text (Obj [("type", Str "config"); ("config", config)]).

Definition updateConfig (config : js) (w : World) : World :=
  match openTransport w with
  | None => w |> setError (Str "Not connected to server")
  | Some ws => w |> ws_send ws (configMessage config)
  end.

(** ** Events of the run loop

    The calls of the component and the events of the host, one handler at a
    time.  A host event is enabled by the state of its socket or timer: a
    socket opens from CONNECTING, delivers messages while OPEN, and closes
    once. *)

Inductive Event : Type :=
| CallConnect
| CallDisconnect
| CallStartRecording
| CallStopRecording
| CallSendAudioChunk (audioData : list Z)
| CallUpdateConfig (config : js)
| SocketOpen (k : nat)
| SocketMessage (k : nat) (data : payload)
| SocketError (k : nat)
| SocketClose (k : nat)
| TimerFires (t : nat).

Definition step (e : Event) (w : World) : option World :=
  match e with
  | CallConnect => Some (connect w)
  | CallDisconnect => Some (disconnect w)
  | CallStartRecording => Some (startRecording w)
  | CallStopRecording => Some (stopRecording w)
  | CallSendAudioChunk audioData => Some (sendAudioChunk audioData w)
  | CallUpdateConfig config => Some (updateConfig config w)
  | SocketOpen k =>
    match sockets w !! k with
    | Some CONNECTING =>
      Some (w |> set_sockets (<[k := OPEN]> (sockets w)) |> handleOpen)
    | _ => None
    end
  | SocketMessage k data =>
    if is_open k w then Some (handleMessage data w) else None
  | SocketError k =>
    match sockets w !! k with
    | Some CLOSED | None => None
    | Some _ => Some (handleError w)
    end
  | SocketClose k =>
    match sockets w !! k with
    | Some CLOSED | None => None
    | Some _ =>
      Some (w |> set_sockets (<[k := CLOSED]> (sockets w)) |> handleClose)
    end
  | TimerFires t =>
    match t with
    | O => None
    | S i =>
      match timers w !! i with
      | Some {| delay := ms; tstate := Pending |} =>
        Some (w |> set_timers (<[i := {| delay := ms; tstate := Fired |}]> (timers w))
                |> reconnectCallback)
      | _ => None
      end
    end
  end.

Fixpoint run (es : list Event) (w : World) : option World :=
  match es with
  | [] => Some w
  | e :: rest =>
    match step e w with
    | Some w' => run rest w'
    | None => None
    end
  end.

(** A run of inbound frames only, as [ws.onmessage] sees them. *)
Definition handleMessages (frames : list payload) (w : World) : World :=
  fold_left (fun acc data => handleMessage data acc) frames w.

(** The delays of all [setTimeout] calls so far, oldest first. *)
Definition scheduledDelays (w : World) : list Z := map delay (timers w).

(** ** Vocabulary for the statements *)

(** The value [switch (message.type)] dispatches on; [None] when reading it
    throws. *)
Definition frameType (d : payload) : option js :=
  match JSON_parse d with
  | None => None
  | Some message => prop message "type"
  end.

Definition hasType (lit : string) (d : payload) : bool :=
  match frameType d with
  | Some ty => is_str ty lit
  | None => false
  end.

(** The members of [ServerMessageType]. *)
Definition ServerMessageTypes : list string :=
  ["ready"; "config_updated"; "recording_started"; "recording_stopped";
   "speech_started"; "speech_ended"; "vad_status"; "status"; "processing";
   "result"; "error"].

(** The frame parses and its [type] is one of [ServerMessageType]. *)
Definition recognized (d : payload) : bool :=
  existsb (fun lit => hasType lit d) ServerMessageTypes.

(** The [result] messages of a run of frames, in receipt order. *)
Definition resultsOf (frames : list payload) : list js :=
  omap JSON_parse (List.filter (hasType "result") frames).

(** The shape of the latest result: [null] or a parsed object. *)
Definition nullOrObject (v : js) : Prop :=
  v = Null \/ exists fs, v = Obj fs.

(** A frame [{type: lit}] and a frame [{type: lit, message: text}]. *)
Definition bare (lit : string) : payload :=
  Json (Obj [("type", Str lit)]).

Definition withMessage (lit text : string) : payload :=
  Json (Obj [("type", Str lit); ("message", Str text)]).

(** A [ResultMessage] with its mandatory fields. *)
Definition resultMessage (text braille : string) : js :=
  Obj [("type", Str "result"); ("transcribed_text", Str text);
       ("braille", Str braille); ("table_used", Str "en-ueb-g2.ctb");
       ("success", Bool true)].

(** The [ReadyMessage] of the spec's connect scenario. *)
Definition readyFrame : payload :=
  Json (Obj [("type", Str "ready"); ("message", Str "ok"); ("model", Str "m")]).

(** The state reached by [connect()] followed by the open event, before any
    [ready] frame: the status is connected and the transport is open. *)
Definition connectedNotReady : World :=
  handleOpen (set_sockets [OPEN] (connect (initial false))).

(** The same connection after its [ready] frame. *)
Definition readyWorld : World := handleMessage readyFrame connectedNotReady.

(** Five unexpected closes, each followed by the reconnection it scheduled,
    and the close of the fifth reconnection. *)
Definition fiveFailures : list Event :=
  [CallConnect;
   SocketClose 0; TimerFires 1;
   SocketClose 1; TimerFires 2;
   SocketClose 2; TimerFires 3;
   SocketClose 3; TimerFires 4;
   SocketClose 4; TimerFires 5;
   SocketClose 5]%nat.

(** The state that run ends in. *)
Definition atCeiling : World :=
  match run fiveFailures (initial false) with
  | Some w => w
  | None => initial false
  end.

End Hook.

(* ===================================================================== *)
(** * The status of the SpeechToBraille component *)
(* ===================================================================== *)

Module Status.
Import Js.

(** [StatusType] *)
Inductive StatusType : Type :=
| SIdle | SListening | SProcessing | SSuccess | SError.

(** The conditional chain over what the hook returned. *)
Definition status (wsError : js) (isProcessing : bool) (result : js)
    (wsIsRecording : bool) : StatusType :=
  if truthy wsError then SError
  else if isProcessing then SProcessing
  else if truthy result then SSuccess
  else if wsIsRecording then SListening
  else SIdle.

Definition statusOf (w : Hook.World) : StatusType :=
  status (Hook.error w) (Hook.isProcessing w) (Hook.result w) (Hook.isRecording w).

End Status.

(* ===================================================================== *)
(** * The components: what SpeechToBraille and BrailleTranslator compute *)
(* ===================================================================== *)

Module View.
Import Braille.

(** ** Strings *)

(** A string literal of the source, as UTF-16 code units. *)
Fixpoint lit (s : string) : jsstring :=
  match s with
  | EmptyString => []
  | String a rest => Z.of_N (Ascii.N_of_ascii a) :: lit rest
  end.

(** [ToBoolean] of a string. *)
Definition nonEmpty (s : jsstring) : bool :=
  match s with
  | [] => false
  | _ :: _ => true
  end.

(** [a === b] on strings. *)
Definition strEq (a b : jsstring) : bool := bool_decide (a = b).

(** [s.length] *)
Definition jslength {A : Type} (s : list A) : Z := Z.of_nat (length s).

(** [s.split('')]: one string per code unit. *)
Definition split (s : jsstring) : list jsstring := map (fun c => [c]) s.

(** [xs.join(sep)] on an array of strings. *)
Fixpoint join (sep : jsstring) (xs : list jsstring) : jsstring :=
  match xs with
  | [] => []
  | [x] => x
  | x :: rest => x ++ sep ++ join sep rest
  end.

(** ** One braille cell: BrailleCharacter / BrailleChar *)

(** [xs.includes(x)] on numbers. *)
Definition includes (xs : list Z) (x : Z) : bool := existsb (Z.eqb x) xs.

Definition isSpace (char : jsstring) : bool :=
  strEq char (lit " ") || strEq char [0xA0].

(** What is drawn: the faded six dots of a space, or six dots in grid order
    (left column 1, 2, 3; right column 4, 5, 6), each active or not. *)
Inductive Cell : Type :=
| SpaceCell
| DotCell (dot1 dot4 dot2 dot5 dot3 dot6 : bool).

Definition BrailleCharacter (char : jsstring) : Cell :=
  let activeDots := getBrailleDots char in
  if isSpace char then SpaceCell
  else
    let isDotActive := fun dotNumber => includes activeDots dotNumber in
    DotCell (isDotActive 1) (isDotActive 4) (isDotActive 2) (isDotActive 5)
            (isDotActive 3) (isDotActive 6).

(** ** Results as the component reads them *)

(** [ResultMessage], with the fields the component computes with; the
    numeric fields are only formatted. *)
Record ResultMessage : Type := {
  transcribed_text : jsstring;
  braille : jsstring;
  language : option jsstring;
  table_used : jsstring;
  success : bool
}.

(** The braille of one segment card: 'No braille output', or the cells of
    the first 50 code units and the '+N more' note. *)
Inductive SegmentBraille : Type :=
| NoBrailleOutput
| BrailleCells (cells : list Cell) (more : option Z).

Definition segmentBraille (resultItem : ResultMessage) : SegmentBraille :=
  if nonEmpty (braille resultItem) && (jslength (braille resultItem) >? 0) then
    BrailleCells
      (map BrailleCharacter (take 50 (split (braille resultItem))))
      (if jslength (braille resultItem) >? 50
       then Some (jslength (braille resultItem) - 50)
       else None)
  else NoBrailleOutput.

(** The segment cards, newest first: [[...accumulatedResults].reverse()]
    mapped with [originalIdx = length - 1 - resultIdx]; the card shows
    'Segment originalIdx + 1' and uses [originalIdx] as its key. *)
Definition segmentCards (accumulatedResults : list ResultMessage)
    : list (Z * ResultMessage) :=
  imap (fun resultIdx resultItem =>
          (jslength accumulatedResults - 1 - Z.of_nat resultIdx, resultItem))
       (reverse accumulatedResults).

(** 'Copy All Unicode' *)
Definition combinedBraille (accumulatedResults : list ResultMessage) : jsstring :=
  join (lit " ") (map braille accumulatedResults).

(** 'Complete Transcription' *)
Definition completeTranscription (accumulatedResults : list ResultMessage)
    : jsstring :=
  join (lit " ") (map transcribed_text accumulatedResults).

(** 'Total Characters': [reduce((sum, r) => sum + r.braille.length, 0)] *)
Definition totalCharacters (accumulatedResults : list ResultMessage) : Z :=
  fold_left (fun sum r => sum + jslength (braille r)) accumulatedResults 0.

(** 'Complete Braille Output': per result its cells, and whether a spacer
    follows ([idx < length - 1]). *)
Definition completeOutput (accumulatedResults : list ResultMessage)
    : list (list Cell * bool) :=
  imap (fun idx resultItem =>
          (map BrailleCharacter (split (braille resultItem)),
           Z.of_nat idx <? jslength accumulatedResults - 1))
       accumulatedResults.

(** ** Grouping the braille tables by language *)

Record BrailleTable : Type := {
  filename : jsstring;
  display_name : jsstring;
  tableLanguage : option jsstring;   (* language *)
  grade : option jsstring
}.

(** The property names every object inherits from [Object.prototype]. *)
Definition ObjectPrototypeKeys : list jsstring :=
  map lit ["constructor"; "__proto__"; "hasOwnProperty"; "isPrototypeOf";
           "propertyIsEnumerable"; "toLocaleString"; "toString"; "valueOf";
           "__defineGetter__"; "__defineSetter__"; "__lookupGetter__";
           "__lookupSetter__"].

(** [table.language || fallback] *)
Definition groupKey (fallback : jsstring) (table : BrailleTable) : jsstring :=
  match tableLanguage table with
  | Some lang => if nonEmpty lang then lang else fallback
  | None => fallback
  end.

(** The reducer.  [acc] starts as [{}]: under an inherited name [acc[lang]]
    is truthy and has no [push], so the call throws a TypeError ([None]). *)
Definition groupInto (fallback : jsstring)
    (acc : option (gmap (list Z) (list BrailleTable))) (table : BrailleTable)
    : option (gmap (list Z) (list BrailleTable)) :=
  match acc with
  | None => None
  | Some acc =>
    let lang := groupKey fallback table in
    if bool_decide (lang ∈ ObjectPrototypeKeys) then None
    else
      let acc :=
        match acc !! lang with
        | Some _ => acc
        | None => <[lang := []]> acc
        end in
      Some (alter (fun group => group ++ [table]) lang acc)
  end.

Definition groupTables (fallback : jsstring) (tables : list BrailleTable)
    : option (gmap (list Z) (list BrailleTable)) :=
  fold_left (groupInto fallback) tables (Some ∅).

(** [groupedTables] of SpeechToBraille and of BrailleTranslator. *)
Definition groupedTablesSpeech (tables : list BrailleTable) :=
  groupTables (lit "unknown") tables.

Definition groupedTablesTranslator (tables : list BrailleTable) :=
  groupTables (lit "other") tables.

(** ** Saved preferences *)

Record Preferences : Type := {
  selectedTable : jsstring;
  selectedLanguage : option jsstring;
  hapticsEnabled : bool
}.

(** [localStorage]: [getItem] is the lookup, [setItem] the insertion. *)
Definition getItem (key : jsstring) (storage : gmap (list Z) (list Z))
    : option jsstring :=
  storage !! key.

Definition setItem (key value : jsstring) (storage : gmap (list Z) (list Z))
    : gmap (list Z) (list Z) :=
  <[key := value]> storage.

(** The three [useState] initialisers. *)
Definition loadPreferences (storage : gmap (list Z) (list Z)) : Preferences :=
  {| selectedTable :=
       match getItem (lit "speech2braille_table") storage with
       | Some saved => if nonEmpty saved then saved else lit "en-ueb-g2.ctb"
       | None => lit "en-ueb-g2.ctb"
       end;
     selectedLanguage :=
       match getItem (lit "speech2braille_language") storage with
       | Some saved => if strEq saved (lit "null") then None else Some saved
       | None => None
       end;
     hapticsEnabled :=
       match getItem (lit "speech2braille_haptics") storage with
       | Some saved => strEq saved (lit "true")
       | None => true
       end |}.

(** [String(b)] *)
Definition stringOfBool (b : bool) : jsstring :=
  if b then lit "true" else lit "false".

(** The three persisting effects, in the order they are declared. *)
Definition persistPreferences (p : Preferences)
    (storage : gmap (list Z) (list Z)) : gmap (list Z) (list Z) :=
  let storage := setItem (lit "speech2braille_table") (selectedTable p) storage in
  let storage :=
    setItem (lit "speech2braille_language")
            (match selectedLanguage p with
             | None => lit "null"
             | Some lang => lang
             end) storage in
  setItem (lit "speech2braille_haptics") (stringOfBool (hapticsEnabled p)) storage.

(** ** The language menu *)

(** [LANGUAGES]: code ([None] for null) and name. *)
Definition LANGUAGES : list (option jsstring * jsstring) :=
  [(None, lit "Auto-detect");
   (Some (lit "en"), lit "English"); (Some (lit "es"), lit "Spanish");
   (Some (lit "fr"), lit "French"); (Some (lit "de"), lit "German");
   (Some (lit "it"), lit "Italian"); (Some (lit "pt"), lit "Portuguese");
   (Some (lit "nl"), lit "Dutch"); (Some (lit "pl"), lit "Polish");
   (Some (lit "ru"), lit "Russian"); (Some (lit "ja"), lit "Japanese");
   (Some (lit "zh"), lit "Chinese"); (Some (lit "ar"), lit "Arabic");
   (Some (lit "hi"), lit "Hindi"); (Some (lit "ko"), lit "Korean");
   (Some (lit "id"), lit "Indonesian")].

(** [lang.code || 'auto'], the value (and key) of a menu item. *)
Definition itemValue (code : option jsstring) : jsstring :=
  match code with
  | Some c => if nonEmpty c then c else lit "auto"
  | None => lit "auto"
  end.

(** [selectedLanguage === null ? 'auto' : selectedLanguage] *)
Definition selectValue (selected : option jsstring) : jsstring :=
  match selected with
  | None => lit "auto"
  | Some lang => lang
  end.

(** [onValueChange]: [val === 'auto' ? null : val] *)
Definition onLanguageChange (val : jsstring) : option jsstring :=
  if strEq val (lit "auto") then None else Some val.

(** [LANGUAGES.find(l => l.code === lang)?.name || lang], for a detected
    language [lang]. *)
Definition detectedName (lang : jsstring) : jsstring :=
  match List.find (fun l => bool_decide (fst l = Some lang)) LANGUAGES with
  | Some l => if nonEmpty (snd l) then snd l else lang
  | None => lang
  end.

(** ** The translate button of BrailleTranslator *)

(** WhiteSpace and LineTerminator code units, what [trim] strips. *)
Definition isWhiteSpace (c : Z) : bool :=
  bool_decide
    (c ∈ [0x09; 0x0A; 0x0B; 0x0C; 0x0D; 0x20; 0xA0; 0x1680; 0x2000; 0x2001;
          0x2002; 0x2003; 0x2004; 0x2005; 0x2006; 0x2007; 0x2008; 0x2009;
          0x200A; 0x2028; 0x2029; 0x202F; 0x205F; 0x3000; 0xFEFF]).

Fixpoint trimStart (s : jsstring) : jsstring :=
  match s with
  | [] => []
  | c :: rest => if isWhiteSpace c then trimStart rest else s
  end.

Definition trimEnd (s : jsstring) : jsstring := reverse (trimStart (reverse s)).

Definition trim (s : jsstring) : jsstring := trimEnd (trimStart s).

(** The body given to [translateMutation.mutate]. *)
Record TranslationRequest : Type := { text : jsstring; table : jsstring }.

(** [handleTranslate]: the request it issues, if any. *)
Definition handleTranslate (inputText selected : jsstring)
    : option TranslationRequest :=
  if nonEmpty (trim inputText)
  then Some {| text := inputText; table := selected |}
  else None.

End View.

(* ===================================================================== *)
(** * Using the hook: runs of calls *)
(* ===================================================================== *)

Module Session.
Import Js Hook.

(** [processor.onaudioprocess] fires once per frame: the chunks of a
    recording, handed to [sendAudioChunk] one after the other. *)
Definition sendAudioChunks (chunks : list (list Z)) (w : World) : World :=
  fold_left (fun acc audioData => sendAudioChunk audioData acc) chunks w.

(** The frame a call of the component hands to [ws.send], for the calls that
    have one. *)
Definition outboundOf (e : Event) : option Outbound :=
  match e with
  | CallStartRecording => Some startRecordingMessage
  | CallStopRecording => Some (Text (Obj [("type", Str "stop_recording")]))
  | CallSendAudioChunk audioData => Some (Binary audioData)
  | CallUpdateConfig config => Some (configMessage config)
  | _ => None
  end.

(** The two first steps of [disconnect]: cancelling the timer of the ref and
    closing the transport of the ref. *)
Definition cancelReconnect (w : World) : World :=
  match reconnectTimeoutRef w with
  | Some (S _ as t) => set_reconnectTimeoutRef None (clearTimeout t w)
  | _ => w
  end.

Definition closeTransport (w : World) : World :=
  match wsRef w with
  | Some ws => set_wsRef None (ws_close ws w)
  | None => w
  end.

(** A closed connection waiting for its first reconnection: [connect()],
    then the close event of the socket. *)
Definition waitingToReconnect : World :=
  handleClose (set_sockets [CLOSED] (connect (initial false))).

(** Every delay scheduled so far lies between the base delay and the cap. *)
Definition delaysInRange (w : World) : Prop :=
  Forall (fun ms => 1000 <= ms <= 10000) (scheduledDelays w).

End Session.

(* ===================================================================== *)
(** * Properties of getBrailleDots *)
(* ===================================================================== *)

Section BrailleFacts.
Import Braille.

Lemma ToInt32_small (x : Z) : 0 <= x < 2 ^ 31 -> ToInt32 (Int x) = x.
Proof.
  intros Hx. unfold ToInt32.
  rewrite Z.mod_small by lia. lia.
Qed.

(** Masking with a power of two isolates one bit. *)
Lemma land_pow2_testbit (o k : Z) :
  0 <= k -> (Z.land o (2 ^ k) =? 0) = negb (Z.testbit o k).
Proof.
  intros Hk.
  destruct (Z.testbit o k) eqn:Hb; simpl.
  - apply Z.eqb_neq. intros H0.
    assert (Hk' : Z.testbit (Z.land o (2 ^ k)) k = true).
    { rewrite Z.land_spec, Hb, Z.pow2_bits_true by lia. reflexivity. }
    rewrite H0, Z.bits_0 in Hk'. discriminate.
  - apply Z.eqb_eq. apply Z.bits_inj'. intros n Hn.
    rewrite Z.land_spec, Z.bits_0, Z.pow2_bits_eqb by lia.
    destruct (Z.eqb_spec k n) as [->|Hne].
    + rewrite Hb. reflexivity.
    + apply andb_false_r.
Qed.

Lemma band_testbit (o k : Z) :
  0 <= o < 256 -> 0 <= k < 8 -> band (Int o) (2 ^ k) = Z.testbit o k.
Proof.
  intros Ho Hk. unfold band.
  assert (Hp : 0 < 2 ^ k <= 2 ^ 7).
  { split; [apply Z.pow_pos_nonneg; lia | apply Z.pow_le_mono_r; lia]. }
  rewrite !ToInt32_small by lia.
  rewrite land_pow2_testbit by lia.
  apply negb_involutive.
Qed.

(** Inside the braille block the result is the scan of the eight bits. *)
Lemma getBrailleDots_block (o : Z) (rest : jsstring) :
  0 <= o <= 0xFF ->
  getBrailleDots ((0x2800 + o) :: rest) = List.filter (dot_set o) all_dots.
Proof.
  intros Ho. unfold getBrailleDots, charCodeAt. cbn [nth_error lt gt sub].
  replace (0x2800 + o <? 0x2800) with false by (symmetry; apply Z.ltb_ge; lia).
  replace (0x2800 + o >? 0x28ff) with false
    by (symmetry; rewrite Z.gtb_ltb; apply Z.ltb_ge; lia).
  cbn [orb]. replace (0x2800 + o - 0x2800) with o by lia.
  change 0x01 with (2 ^ 0). change 0x02 with (2 ^ 1). change 0x04 with (2 ^ 2).
  change 0x08 with (2 ^ 3). change 0x10 with (2 ^ 4). change 0x20 with (2 ^ 5).
  change 0x40 with (2 ^ 6). change 0x80 with (2 ^ 7).
  rewrite !band_testbit by lia.
  unfold all_dots, dot_set. cbn [List.filter].
  change (1 - 1) with 0. change (2 - 1) with 1. change (3 - 1) with 2.
  change (4 - 1) with 3. change (5 - 1) with 4. change (6 - 1) with 5.
  change (7 - 1) with 6. change (8 - 1) with 7.
  destruct (Z.testbit o 0), (Z.testbit o 1), (Z.testbit o 2), (Z.testbit o 3),
    (Z.testbit o 4), (Z.testbit o 5), (Z.testbit o 6), (Z.testbit o 7);
    reflexivity.
Qed.

Lemma getBrailleDots_outside (c : Z) (rest : jsstring) :
  c < 0x2800 \/ 0x28ff < c -> getBrailleDots (c :: rest) = [].
Proof.
  intros Hc. unfold getBrailleDots, charCodeAt. cbn [nth_error lt gt].
  destruct Hc as [Hc|Hc].
  - replace (c <? 0x2800) with true by (symmetry; apply Z.ltb_lt; lia).
    reflexivity.
  - replace (c >? 0x28ff) with true
      by (symmetry; rewrite Z.gtb_ltb; apply Z.ltb_lt; lia).
    destruct (c <? 0x2800); reflexivity.
Qed.

Lemma filter_increasing (f : Z -> bool) (l : list Z) :
  StronglySorted Z.lt l -> StronglySorted Z.lt (List.filter f l).
Proof.
  induction 1 as [|a l Hs IH Ha]; cbn [List.filter].
  - constructor.
  - destruct (f a); [|exact IH].
    constructor; [exact IH|].
    rewrite List.Forall_forall in *. intros x Hx.
    apply filter_In in Hx. apply Ha, Hx.
Qed.

Lemma all_dots_increasing : StronglySorted Z.lt all_dots.
Proof. unfold all_dots. repeat constructor; lia. Qed.

Lemma In_all_dots (d : Z) : In d all_dots <-> 1 <= d <= 8.
Proof. unfold all_dots. cbn [In]. lia. Qed.

(** C10. [getBrailleDots] is a total function of the string it is given and
    looks at its first code unit only: on the empty string and on a first code
    unit outside [0x2800, 0x28FF] it returns the empty list; on the code unit
    [0x2800 + o] with [o] in [0, 0xFF] it returns exactly the dot numbers [d]
    of 1..8 for which bit [d - 1] of [o] is set, in strictly increasing
    order. *)
Theorem getBrailleDots_total_spec (c : Z) (rest : jsstring) :
  getBrailleDots [] = [] /\
  (c < 0x2800 \/ 0x28ff < c -> getBrailleDots (c :: rest) = []) /\
  (forall o : Z, 0 <= o <= 0xFF -> c = 0x2800 + o ->
     getBrailleDots (c :: rest) = List.filter (dot_set o) all_dots /\
     StronglySorted Z.lt (getBrailleDots (c :: rest)) /\
     (forall d : Z, In d (getBrailleDots (c :: rest)) <->
                    1 <= d <= 8 /\ Z.testbit o (d - 1) = true)).
Proof.
  split; [reflexivity|]. split.
  - apply getBrailleDots_outside.
  - intros o Ho ->. rewrite getBrailleDots_block by exact Ho.
    split; [reflexivity|]. split.
    + apply filter_increasing, all_dots_increasing.
    + intros d. rewrite filter_In, In_all_dots. reflexivity.
Qed.

Lemma getBrailleDots_total_spec_witness :
  getBrailleDots [0x41] = [] /\
  getBrailleDots [0x2895] = List.filter (dot_set 0x95) all_dots /\
  StronglySorted Z.lt (getBrailleDots [0x2895]).
Proof.
  destruct (getBrailleDots_total_spec 0x41 []) as (_ & Hout & _).
  destruct (getBrailleDots_total_spec 0x2895 []) as (_ & _ & Hin).
  destruct (Hin 0x95) as (Heq & Hsorted & _); [lia | reflexivity |].
  split; [apply Hout; left; lia|].
  split; [exact Heq | exact Hsorted].
Defined.

End BrailleFacts.

(* ===================================================================== *)
(** * Inbound frames *)
(* ===================================================================== *)

(** Case analysis on the frame as the [switch] sees it: no type to read, a
    type that is not a string, or a string compared with each case label. *)
Ltac by_frame d :=
  unfold Hook.handleMessage, Hook.hasType, Hook.frameType in *;
  destruct d as [|?message]; cbn [Hook.JSON_parse] in *;
  [ | destruct (Js.prop message "type") as [[| | ?b | ?z | ?s | ?l | ?fs]|];
      cbn [Js.is_str] in * ];
  repeat match goal with
         | |- context [String.eqb ?s ?lit] =>
           destruct (String.eqb_spec s lit); [subst s|]; cbn in *
         | H : context [String.eqb ?s ?lit] |- _ =>
           destruct (String.eqb_spec s lit); [subst s|]; cbn in *
         end.

Section InboundFacts.
Import Js Hook.

Lemma is_str_true (ty : js) (lit : string) : is_str ty lit = true -> ty = Str lit.
Proof.
  destruct ty; cbn; try discriminate.
  intros H. apply String.eqb_eq in H. now subst.
Qed.

(** A frame of a given type parses, and reading [.type] gives that string. *)
Lemma hasType_inv (lit : string) (d : payload) :
  hasType lit d = true ->
  exists message, d = Json message /\ prop message "type" = Some (Str lit).
Proof.
  unfold hasType, frameType. destruct d as [|message]; cbn; [discriminate|].
  destruct (prop message "type") as [ty|] eqn:Hty; [|discriminate].
  intros H. apply is_str_true in H. subst ty.
  exists message. split; [reflexivity | exact Hty].
Qed.

Lemma handleMessage_unrecognized (d : payload) (w : World) :
  recognized d = false -> handleMessage d w = w.
Proof.
  unfold recognized, ServerMessageTypes. cbn [existsb]. intros H.
  by_frame d; try reflexivity; try discriminate.
Qed.

(** C8. A frame that fails to parse, or whose [type] cannot be read, is not a
    string or is none of the [ServerMessageType] strings, leaves the whole
    state of the hook (connection status, flags, error message, latest result,
    accumulation, refs, sockets, timers, sent frames) as it was; the handler
    returns normally, so a connection that was ready stays ready. *)
Theorem unknown_frame_is_ignored (d : payload) (w : World) :
  recognized d = false ->
  handleMessage d w = w /\
  (connectionStatus w = Ready -> connectionStatus (handleMessage d w) = Ready).
Proof.
  intros H. rewrite (handleMessage_unrecognized d w H). split; [reflexivity|auto].
Qed.

Lemma unknown_frame_is_ignored_witness :
  connectionStatus readyWorld = Ready /\
  (handleMessage (bare "unknown_type") readyWorld = readyWorld /\
   handleMessage Malformed readyWorld = readyWorld /\
   handleMessage (Json (Obj [("message", Str "no type")])) readyWorld = readyWorld /\
   handleMessage (Json Null) readyWorld = readyWorld) /\
  connectionStatus (handleMessage (bare "unknown_type") readyWorld) = Ready.
Proof.
  destruct (unknown_frame_is_ignored (bare "unknown_type") readyWorld)
    as [H1 H1']; [reflexivity|].
  destruct (unknown_frame_is_ignored Malformed readyWorld) as [H2 _];
    [reflexivity|].
  destruct (unknown_frame_is_ignored (Json (Obj [("message", Str "no type")]))
              readyWorld) as [H3 _]; [reflexivity|].
  destruct (unknown_frame_is_ignored (Json Null) readyWorld) as [H4 _];
    [reflexivity|].
  split; [reflexivity|].
  split; [repeat split; assumption|].
  apply H1'. reflexivity.
Defined.

(** *** What one frame does to the accumulation, the latest result and the
    error message *)

Lemma handleMessage_accumulatedResults (d : payload) (w : World) :
  accumulatedResults (handleMessage d w) =
  if hasType "recording_started" d then []
  else accumulatedResults w ++ resultsOf [d].
Proof.
  unfold resultsOf. cbn [List.filter].
  by_frame d; cbn; rewrite ?app_nil_r; reflexivity.
Qed.

Lemma handleMessage_result (d : payload) (w : World) :
  result (handleMessage d w) =
  if hasType "recording_started" d then Null
  else List.last (resultsOf [d]) (result w).
Proof.
  unfold resultsOf. cbn [List.filter].
  by_frame d; cbn; reflexivity.
Qed.

Lemma handleMessage_error (d : payload) (w : World) :
  error (handleMessage d w) =
  if hasType "ready" d || hasType "recording_started" d then Null
  else if hasType "error" d
       then match JSON_parse d with
            | Some message => field message "message"
            | None => error w
            end
       else error w.
Proof. by_frame d; cbn; reflexivity. Qed.

Lemma handleMessage_connectionStatus (d : payload) (w : World) :
  connectionStatus (handleMessage d w) =
  if hasType "ready" d then Ready else connectionStatus w.
Proof. by_frame d; cbn; reflexivity. Qed.

Lemma handleMessage_reconnectAttemptsRef (d : payload) (w : World) :
  reconnectAttemptsRef (handleMessage d w) =
  if hasType "ready" d then 0 else reconnectAttemptsRef w.
Proof. by_frame d; cbn; reflexivity. Qed.

Lemma resultsOf_cons (d : payload) (frames : list payload) :
  resultsOf (d :: frames) = resultsOf [d] ++ resultsOf frames.
Proof.
  unfold resultsOf. cbn [List.filter].
  destruct (hasType "result" d); cbn; [|reflexivity].
  destruct (JSON_parse d); reflexivity.
Qed.

Lemma resultsOf_length (frames : list payload) :
  length (resultsOf frames) = length (List.filter (hasType "result") frames).
Proof.
  induction frames as [|d frames IH]; [reflexivity|].
  rewrite resultsOf_cons, length_app, IH.
  unfold resultsOf. cbn [List.filter].
  destruct (hasType "result" d) eqn:Hd; [|reflexivity].
  destruct (hasType_inv _ _ Hd) as (message & -> & _). reflexivity.
Qed.

Lemma last_cons_default {A : Type} (a : A) (l : list A) (x y : A) :
  List.last (a :: l) x = List.last (a :: l) y.
Proof.
  revert a. induction l as [|b l IH]; intros a; [reflexivity|].
  change (List.last (b :: l) x = List.last (b :: l) y). apply IH.
Qed.

Lemma last_app_default {A : Type} (l1 l2 : list A) (x : A) :
  List.last (l1 ++ l2) x = List.last l2 (List.last l1 x).
Proof.
  induction l1 as [|a l1 IH]; [reflexivity|].
  destruct l2 as [|b l2].
  - rewrite app_nil_r. reflexivity.
  - destruct l1 as [|a' l1].
    + cbn [app]. change (List.last (b :: l2) x = List.last (b :: l2) (List.last [a] x)).
      apply last_cons_default.
    + change (List.last ((a' :: l1) ++ b :: l2) x =
              List.last (b :: l2) (List.last (a' :: l1) x)).
      exact IH.
Qed.

(** Frames with no [recording_started] among them only append. *)
Lemma handleMessages_append (frames : list payload) (w : World) :
  forallb (fun d => negb (hasType "recording_started" d)) frames = true ->
  accumulatedResults (handleMessages frames w) =
    accumulatedResults w ++ resultsOf frames /\
  result (handleMessages frames w) = List.last (resultsOf frames) (result w).
Proof.
  revert w. induction frames as [|d frames IH]; intros w Hno.
  - cbn. rewrite app_nil_r. split; reflexivity.
  - cbn [forallb] in Hno. apply andb_prop in Hno as [Hd Hrest].
    apply negb_true_iff in Hd.
    change (handleMessages (d :: frames) w)
      with (handleMessages frames (handleMessage d w)).
    destruct (IH (handleMessage d w) Hrest) as [IHa IHr].
    rewrite IHa, IHr, handleMessage_accumulatedResults, handleMessage_result, Hd.
    rewrite (resultsOf_cons d frames), last_app_default, app_assoc.
    split; reflexivity.
Qed.

(** C6. Whatever was accumulated before, a [recording_started] frame leaves
    the accumulation empty and the latest result cleared; after any further
    frames with no [recording_started] among them, the accumulation is exactly
    the [result] messages of those frames in receipt order, its length is the
    number N of [result] frames received, and the latest result is the last
    message appended (still cleared when N = 0). *)
Theorem recording_started_then_results (w : World) (started : payload) :
  hasType "recording_started" started = true ->
  let w1 := handleMessage started w in
  accumulatedResults w1 = [] /\
  result w1 = Null /\
  forall frames : list payload,
    forallb (fun d => negb (hasType "recording_started" d)) frames = true ->
    let w2 := handleMessages frames w1 in
    accumulatedResults w2 = resultsOf frames /\
    length (accumulatedResults w2) =
      length (List.filter (hasType "result") frames) /\
    result w2 = List.last (resultsOf frames) Null.
Proof.
  intros Hs w1.
  assert (Ha : accumulatedResults w1 = []).
  { unfold w1. rewrite handleMessage_accumulatedResults, Hs. reflexivity. }
  assert (Hr : result w1 = Null).
  { unfold w1. rewrite handleMessage_result, Hs. reflexivity. }
  split; [exact Ha|]. split; [exact Hr|].
  intros frames Hno w2.
  destruct (handleMessages_append frames w1 Hno) as [Hacc Hres].
  fold w2 in Hacc, Hres. rewrite Ha in Hacc. rewrite Hr in Hres. cbn in Hacc.
  split; [exact Hacc|]. split; [|exact Hres].
  rewrite Hacc. apply resultsOf_length.
Qed.

Lemma recording_started_then_results_witness :
  let w := handleMessages [Json (resultMessage "old" "o")] (initial false) in
  let w1 := handleMessage (bare "recording_started") w in
  let frames := [Json (resultMessage "one" "a"); bare "speech_started";
                 Malformed; Json (resultMessage "two" "b"); bare "processing"] in
  accumulatedResults w = [resultMessage "old" "o"] /\
  accumulatedResults w1 = [] /\
  result w1 = Null /\
  accumulatedResults (handleMessages frames w1) =
    [resultMessage "one" "a"; resultMessage "two" "b"] /\
  length (accumulatedResults (handleMessages frames w1)) = 2%nat /\
  result (handleMessages frames w1) = resultMessage "two" "b".
Proof.
  intros w w1 frames.
  destruct (recording_started_then_results w (bare "recording_started") eq_refl)
    as (Hacc & Hres & Hafter).
  destruct (Hafter frames eq_refl) as (Hacc2 & Hlen & Hres2).
  split; [reflexivity|].
  split; [exact Hacc|]. split; [exact Hres|].
  split; [exact Hacc2|]. split; [exact Hlen | exact Hres2].
Defined.

End InboundFacts.

(* ===================================================================== *)
(** * Sending: updateConfig and startRecording *)
(* ===================================================================== *)

Section SendFacts.
Import Js Hook.

(** The guard of every sending call reads the transport, not the status. *)
Lemma openTransport_Some (w : World) (ws : nat) :
  openTransport w = Some ws <->
  wsRef w = Some ws /\ sockets w !! ws = Some OPEN.
Proof.
  unfold openTransport, is_open. split.
  - destruct (wsRef w) as [k|]; [|discriminate].
    destruct (sockets w !! k) as [[]|] eqn:Hk; try discriminate.
    intros [= <-]. split; [reflexivity | exact Hk].
  - intros [-> ->]. reflexivity.
Qed.

Lemma openTransport_status_blind (c : ConnectionStatus) (w : World) :
  openTransport (setConnectionStatus c w) = openTransport w.
Proof. reflexivity. Qed.

Lemma connectedNotReady_reached :
  run [CallConnect; SocketOpen 0] (initial false) = Some connectedNotReady.
Proof. vm_compute. reflexivity. Qed.

(** The connect scenario: disconnected, connecting, connected, ready. *)
Lemma readyWorld_reached :
  connectionStatus (initial false) = Disconnected /\
  option_map connectionStatus (run [CallConnect] (initial false)) =
    Some Connecting /\
  option_map connectionStatus (run [CallConnect; SocketOpen 0] (initial false)) =
    Some Connected /\
  run [CallConnect; SocketOpen 0; SocketMessage 0 readyFrame] (initial false) =
    Some readyWorld /\
  connectionStatus readyWorld = Ready.
Proof. vm_compute. repeat split. Qed.

(** C4, as stated, fails: in status connected, which is not ready,
    [updateConfig] sends a config message and reports no error. *)
Lemma updateConfig_sends_when_connected :
  let cfg := Obj [("braille_table", Str "en-ueb-g2.ctb"); ("language", Null);
                  ("task", Str "transcribe")] in
  run [CallConnect; SocketOpen 0] (initial false) = Some connectedNotReady /\
  connectionStatus connectedNotReady = Connected /\
  isReady connectedNotReady = false /\
  sent (updateConfig cfg connectedNotReady) = [(0%nat, configMessage cfg)] /\
  error (updateConfig cfg connectedNotReady) = Null.
Proof. vm_compute. repeat split. Qed.

(** C4, amended. [updateConfig(cfg)] transmits exactly when the hook holds a
    transport whose readyState is OPEN, whatever the connection status: then
    it sends exactly one config message on that transport and changes nothing
    else (no error is reported); otherwise it sends nothing and sets the error
    message to 'Not connected to server'. *)
Theorem updateConfig_guarded_by_transport (cfg : js) (w : World) :
  (forall ws : nat,
     wsRef w = Some ws -> sockets w !! ws = Some OPEN ->
     updateConfig cfg w = ws_send ws (configMessage cfg) w /\
     sent (updateConfig cfg w) = sent w ++ [(ws, configMessage cfg)] /\
     error (updateConfig cfg w) = error w) /\
  (openTransport w = None ->
     updateConfig cfg w = setError (Str "Not connected to server") w /\
     sent (updateConfig cfg w) = sent w /\
     error (updateConfig cfg w) = Str "Not connected to server").
Proof.
  split.
  - intros ws Href Hopen.
    assert (Ht : openTransport w = Some ws) by (apply openTransport_Some; auto).
    unfold updateConfig. rewrite Ht. repeat split.
  - intros Ht. unfold updateConfig. rewrite Ht. repeat split.
Qed.

Lemma updateConfig_guarded_by_transport_witness :
  sent (updateConfig Null connectedNotReady) = [(0%nat, configMessage Null)] /\
  error (updateConfig Null connectedNotReady) = Null /\
  sent (updateConfig Null readyWorld) = [(0%nat, configMessage Null)] /\
  sent (updateConfig Null (initial false)) = [] /\
  error (updateConfig Null (initial false)) = Str "Not connected to server".
Proof.
  destruct (updateConfig_guarded_by_transport Null connectedNotReady) as [Hopen _].
  destruct (Hopen 0%nat eq_refl eq_refl) as (_ & Hsent & Herr).
  destruct (updateConfig_guarded_by_transport Null readyWorld) as [Hready _].
  destruct (Hready 0%nat eq_refl eq_refl) as (_ & Hsent2 & _).
  destruct (updateConfig_guarded_by_transport Null (initial false))
    as [_ Hclosed].
  destruct (Hclosed eq_refl) as (_ & Hsent' & Herr').
  split; [exact Hsent|]. split; [exact Herr|]. split; [exact Hsent2|].
  split; [exact Hsent' | exact Herr'].
Defined.

(** C5, as stated, fails: in status connected, which is not ready,
    [startRecording] sends start_recording and reports no error. *)
Lemma startRecording_sends_when_connected :
  run [CallConnect; SocketOpen 0] (initial false) = Some connectedNotReady /\
  connectionStatus connectedNotReady = Connected /\
  isReady connectedNotReady = false /\
  sent (startRecording connectedNotReady) = [(0%nat, startRecordingMessage)] /\
  error (startRecording connectedNotReady) = Null.
Proof. vm_compute. repeat split. Qed.

(** C5, amended. The precondition of [startRecording()] is a transport whose
    readyState is OPEN, whatever the connection status: then it clears the
    latest result and the status snapshot and sends exactly one
    start_recording message, reporting no error; otherwise it sets the error
    message to 'Not connected to server', sends nothing and clears nothing. *)
Theorem startRecording_guarded_by_transport (w : World) :
  (forall ws : nat,
     wsRef w = Some ws -> sockets w !! ws = Some OPEN ->
     result (startRecording w) = Null /\
     statusInfo (startRecording w) = Null /\
     sent (startRecording w) = sent w ++ [(ws, startRecordingMessage)] /\
     error (startRecording w) = error w /\
     accumulatedResults (startRecording w) = accumulatedResults w) /\
  (openTransport w = None ->
     startRecording w = setError (Str "Not connected to server") w /\
     sent (startRecording w) = sent w /\
     error (startRecording w) = Str "Not connected to server" /\
     result (startRecording w) = result w /\
     statusInfo (startRecording w) = statusInfo w).
Proof.
  split.
  - intros ws Href Hopen.
    assert (Ht : openTransport w = Some ws) by (apply openTransport_Some; auto).
    unfold startRecording. rewrite Ht. repeat split.
  - intros Ht. unfold startRecording. rewrite Ht. repeat split.
Qed.

Lemma startRecording_guarded_by_transport_witness :
  let w := handleMessages [Json (resultMessage "old" "o"); bare "status"]
             connectedNotReady in
  (result w = resultMessage "old" "o" /\ statusInfo w <> Null) /\
  result (startRecording w) = Null /\
  statusInfo (startRecording w) = Null /\
  sent (startRecording w) = [(0%nat, startRecordingMessage)] /\
  sent (startRecording (initial false)) = [] /\
  error (startRecording (initial false)) = Str "Not connected to server".
Proof.
  intros w.
  destruct (startRecording_guarded_by_transport w) as [Hopen _].
  destruct (Hopen 0%nat eq_refl eq_refl) as (Hres & Hinfo & Hsent & _).
  destruct (startRecording_guarded_by_transport (initial false)) as [_ Hclosed].
  destruct (Hclosed eq_refl) as (_ & Hsent' & Herr' & _).
  split; [split; [reflexivity | discriminate]|].
  split; [exact Hres|]. split; [exact Hinfo|]. split; [exact Hsent|].
  split; [exact Hsent' | exact Herr'].
Defined.

End SendFacts.

(* ===================================================================== *)
(** * Closing, reconnecting, connecting *)
(* ===================================================================== *)

Section ReconnectFacts.
Import Js Hook.

Lemma pending_from_app (t : nat) (a b : list Timer) :
  pending_from t (a ++ b) =
  pending_from t a ++ pending_from (t + length a) b.
Proof.
  revert t. induction a as [|tm a IH]; intros t; cbn [app pending_from length].
  - rewrite Nat.add_0_r. reflexivity.
  - rewrite IH. replace (S t + length a)%nat with (t + S (length a))%nat by lia.
    destruct (tstate tm); reflexivity.
Qed.

Lemma reconnectDelay_table :
  map reconnectDelay [0; 1; 2; 3; 4] = [1000; 2000; 4000; 8000; 10000].
Proof. reflexivity. Qed.

(** Below the ceiling [handleClose] arms one timer and keeps the counter. *)
Lemma handleClose_schedules (w : World) :
  reconnectAttemptsRef w < 5 ->
  timers (handleClose w) =
    timers w ++ [{| delay := reconnectDelay (reconnectAttemptsRef w);
                    tstate := Pending |}] /\
  reconnectTimeoutRef (handleClose w) = Some (S (length (timers w))) /\
  reconnectAttemptsRef (handleClose w) = reconnectAttemptsRef w /\
  error (handleClose w) = error w.
Proof.
  intros Hn. unfold handleClose. cbn.
  destruct (Z.ltb_spec (reconnectAttemptsRef w) 5) as [_|Hge]; [|lia].
  cbn. repeat split.
Qed.

(** At the ceiling it arms nothing and reports the failure. *)
Lemma handleClose_gives_up (w : World) :
  5 <= reconnectAttemptsRef w ->
  timers (handleClose w) = timers w /\
  reconnectTimeoutRef (handleClose w) = reconnectTimeoutRef w /\
  reconnectAttemptsRef (handleClose w) = reconnectAttemptsRef w /\
  error (handleClose w) = Str "Failed to reconnect after multiple attempts".
Proof.
  intros Hn. unfold handleClose. cbn.
  destruct (Z.ltb_spec (reconnectAttemptsRef w) 5) as [Hlt|_]; [lia|].
  cbn. repeat split.
Qed.

Lemma step_SocketClose (k : nat) (s : ReadyState) (w : World) :
  sockets w !! k = Some s -> s <> CLOSED ->
  step (SocketClose k) w =
  Some (handleClose (set_sockets (<[k := CLOSED]> (sockets w)) w)).
Proof.
  intros Hk Hs. cbn [step]. rewrite Hk. destruct s; congruence.
Qed.

Lemma connect_reconnectAttemptsRef (w : World) :
  reconnectAttemptsRef (connect w) = reconnectAttemptsRef w.
Proof.
  unfold connect.
  destruct (match wsRef w with Some k => is_open k w | None => false end);
    [reflexivity|].
  cbn. destruct (urlRejected w); reflexivity.
Qed.

Lemma connect_timers (w : World) : timers (connect w) = timers w.
Proof.
  unfold connect.
  destruct (match wsRef w with Some k => is_open k w | None => false end);
    [reflexivity|].
  cbn. destruct (urlRejected w); reflexivity.
Qed.


(** The timer armed by [handleClose], when it fires, counts one attempt and
    calls [connect]. *)
Lemma step_TimerFires (i : nat) (ms : Z) (w : World) :
  timers w !! i = Some {| delay := ms; tstate := Pending |} ->
  step (TimerFires (S i)) w =
  Some (reconnectCallback
          (set_timers (<[i := {| delay := ms; tstate := Fired |}]> (timers w)) w)).
Proof. intros Hi. cbn [step]. rewrite Hi. reflexivity. Qed.

Lemma reconnectCallback_counts (w : World) :
  reconnectAttemptsRef (reconnectCallback w) = reconnectAttemptsRef w + 1.
Proof. unfold reconnectCallback. rewrite connect_reconnectAttemptsRef. reflexivity. Qed.

(** C2. When a socket closes with the attempt counter at [n] in [0, 5), one
    reconnection timer is armed with delay exactly [min(1000 * 2^n, 10000)] ms
    and, when it fires, the counter becomes [n + 1]; so five failures in a row
    wait 1000, 2000, 4000, 8000, 10000 ms.  With the counter at 5 or more a
    close arms no timer and sets the error message 'Failed to reconnect after
    multiple attempts': after five automatic reconnections there is no
    sixth. *)
Theorem reconnect_backoff :
  (forall (w : World) (k : nat) (s : ReadyState) (n : Z),
     sockets w !! k = Some s -> s <> CLOSED ->
     reconnectAttemptsRef w = n ->
     exists w' : World,
       step (SocketClose k) w = Some w' /\
       (0 <= n < 5 ->
          let t := S (length (timers w)) in
          pending w' = pending w ++ [(t, Z.min (1000 * 2 ^ n) 10000)] /\
          reconnectTimeoutRef w' = Some t /\
          exists w'' : World,
            step (TimerFires t) w' = Some w'' /\
            reconnectAttemptsRef w'' = n + 1) /\
       (5 <= n ->
          pending w' = pending w /\
          scheduledDelays w' = scheduledDelays w /\
          error w' = Str "Failed to reconnect after multiple attempts")) /\
  map reconnectDelay [0; 1; 2; 3; 4] = [1000; 2000; 4000; 8000; 10000] /\
  option_map
    (fun w => (scheduledDelays w, pending w, length (sockets w),
               reconnectAttemptsRef w, error w))
    (run fiveFailures (initial false)) =
  Some ([1000; 2000; 4000; 8000; 10000], [], 6%nat, 5,
        Str "Failed to reconnect after multiple attempts").
Proof.
  split; [|split; [exact reconnectDelay_table|]].
  - intros w k s n Hk Hs Hn.
    set (w1 := set_sockets (<[k := CLOSED]> (sockets w)) w).
    exists (handleClose w1).
    split; [exact (step_SocketClose k s w Hk Hs)|].
    assert (Hn1 : reconnectAttemptsRef w1 = n) by exact Hn.
    split.
    + intros Hlow t.
      destruct (handleClose_schedules w1) as (Ht & Href & Hatt & _); [lia|].
      rewrite Hn1 in Ht, Hatt. change (timers w1) with (timers w) in Ht, Href.
      split; [|split; [exact Href|]].
      * unfold pending. rewrite Ht, pending_from_app. reflexivity.
      * eexists. split.
        -- apply step_TimerFires. rewrite Ht.
           apply list_lookup_middle. reflexivity.
        -- rewrite reconnectCallback_counts. cbn. rewrite Hatt. reflexivity.
    + intros Hhigh.
      destruct (handleClose_gives_up w1) as (Ht & _ & _ & Herr); [lia|].
      change (timers w1) with (timers w) in Ht.
      unfold pending, scheduledDelays. rewrite Ht. repeat split. exact Herr.
  - vm_compute. reflexivity.
Qed.

Lemma atCeiling_reached : run fiveFailures (initial false) = Some atCeiling.
Proof. vm_compute. reflexivity. Qed.

Lemma reconnect_backoff_witness :
  (exists w' : World,
     step (SocketClose 0) (connect (initial false)) = Some w' /\
     pending w' = [(1%nat, 1000)] /\
     exists w'' : World,
       step (TimerFires 1) w' = Some w'' /\ reconnectAttemptsRef w'' = 1) /\
  (exists w' : World,
     step (SocketClose 6) (connect atCeiling) = Some w' /\
     pending w' = [] /\
     error w' = Str "Failed to reconnect after multiple attempts").
Proof.
  destruct reconnect_backoff as (Hlaw & _ & _).
  split.
  - destruct (Hlaw (connect (initial false)) 0%nat CONNECTING 0)
      as (w' & Hstep & Hlow & _);
      [reflexivity | discriminate | reflexivity |].
    destruct Hlow as (Hp & _ & Hfire); [lia|].
    exists w'. split; [exact Hstep|]. split; [exact Hp | exact Hfire].
  - destruct (Hlaw (connect atCeiling) 6%nat CONNECTING 5)
      as (w' & Hstep & _ & Hhigh);
      [vm_compute; reflexivity | discriminate | vm_compute; reflexivity |].
    destruct Hhigh as (Hp & _ & Herr); [lia|].
    assert (Hnone : pending (connect atCeiling) = []) by (vm_compute; reflexivity).
    rewrite Hnone in Hp.
    exists w'. split; [exact Hstep|]. split; [exact Hp | exact Herr].
Defined.

(** *** What [disconnect] leaves behind *)

(** Cancelling the timer of the ref touches neither the sockets nor the
    counter, and keeps every timer handle. *)
Lemma clearTimeout_preserves (t : nat) (w : World) :
  wsRef (clearTimeout t w) = wsRef w /\
  sockets (clearTimeout t w) = sockets w /\
  reconnectAttemptsRef (clearTimeout t w) = reconnectAttemptsRef w /\
  length (timers (clearTimeout t w)) = length (timers w).
Proof.
  unfold clearTimeout. destruct t as [|i]; [repeat split|].
  destruct (timers w !! i) as [[ms []]|]; cbn; repeat split.
  apply length_insert.
Qed.

Lemma ws_close_keeps_closable (ws : nat) (s : ReadyState) (w : World) :
  sockets w !! ws = Some s -> s <> CLOSED ->
  exists s' : ReadyState,
    sockets (ws_close ws w) !! ws = Some s' /\ s' <> CLOSED.
Proof.
  intros Hs Hne. unfold ws_close. rewrite Hs.
  assert (Hlt : (ws < length (sockets w))%nat) by (eapply lookup_lt_Some; eauto).
  destruct s; cbn.
  - exists CLOSING. rewrite list_lookup_insert_eq by exact Hlt. split; congruence.
  - exists CLOSING. rewrite list_lookup_insert_eq by exact Hlt. split; congruence.
  - exists CLOSING. split; [exact Hs | congruence].
  - congruence.
Qed.

Lemma disconnect_leaves_closable (w : World) (ws : nat) (s : ReadyState) :
  wsRef w = Some ws -> sockets w !! ws = Some s -> s <> CLOSED ->
  (exists s' : ReadyState,
     sockets (disconnect w) !! ws = Some s' /\ s' <> CLOSED) /\
  reconnectAttemptsRef (disconnect w) = reconnectAttemptsRef w /\
  length (timers (disconnect w)) = length (timers w).
Proof.
  intros Href Hs Hne. unfold disconnect.
  set (w0 := match reconnectTimeoutRef w with
             | Some (S _ as t) => set_reconnectTimeoutRef None (clearTimeout t w)
             | _ => w
             end).
  assert (H0 : wsRef w0 = wsRef w /\ sockets w0 = sockets w /\
               reconnectAttemptsRef w0 = reconnectAttemptsRef w /\
               length (timers w0) = length (timers w)).
  { unfold w0. destruct (reconnectTimeoutRef w) as [[|t]|]; try (repeat split; fail).
    exact (clearTimeout_preserves (S t) w). }
  destruct H0 as (Hr0 & Hs0 & Ha0 & Ht0).
  rewrite Hr0, Href. cbn.
  rewrite <- Hs0 in Hs.
  destruct (ws_close_keeps_closable ws s w0 Hs Hne) as (s' & Hs' & Hne').
  split; [exists s'; split; assumption|].
  unfold ws_close. destruct (sockets w0 !! ws) as [[]|]; cbn; split; assumption.
Qed.

(** C1 on the code.  Whenever the hook holds a transport that is not yet
    closed and the counter is below 5, [disconnect()] followed by the close
    event of that transport ends with a reconnection timer armed: the close
    handler re-arms what [disconnect()] cancelled.  On the run connect, open,
    ready, disconnect: the status is disconnected and no timer is pending
    after [disconnect()], a 1000 ms timer is pending after the close event,
    and a new socket is connecting after the timer fires. *)
Theorem disconnect_then_close_reschedules :
  (forall (w : World) (ws : nat) (s : ReadyState),
     wsRef w = Some ws -> sockets w !! ws = Some s -> s <> CLOSED ->
     reconnectAttemptsRef w < 5 ->
     exists w' : World,
       run [CallDisconnect; SocketClose ws] w = Some w' /\
       reconnectTimeoutRef w' = Some (S (length (timers w))) /\
       last (pending w') =
         Some (S (length (timers w)), reconnectDelay (reconnectAttemptsRef w))) /\
  option_map (fun w => (connectionStatus w, pending w, sockets w, wsRef w))
    (run [CallDisconnect] readyWorld) =
  Some (Disconnected, [], [CLOSING], None) /\
  option_map (fun w => (connectionStatus w, pending w, sockets w))
    (run [CallDisconnect; SocketClose 0] readyWorld) =
  Some (Disconnected, [(1%nat, 1000)], [CLOSED]) /\
  option_map (fun w => (connectionStatus w, sockets w, wsRef w,
                        reconnectAttemptsRef w))
    (run [CallDisconnect; SocketClose 0; TimerFires 1] readyWorld) =
  Some (Connecting, [CLOSED; CONNECTING], Some 1%nat, 1).
Proof.
  split; [|vm_compute; repeat split].
  intros w ws s Href Hs Hne Hn.
  destruct (disconnect_leaves_closable w ws s Href Hs Hne)
    as ((s' & Hs' & Hne') & Hatt & Hlen).
  set (w1 := disconnect w) in *.
  set (w2 := set_sockets (<[ws := CLOSED]> (sockets w1)) w1).
  exists (handleClose w2). split.
  - change (run [CallDisconnect; SocketClose ws] w)
      with (match step (SocketClose ws) w1 with
            | Some w' => Some w'
            | None => None
            end).
    rewrite (step_SocketClose ws s' w1 Hs' Hne'). reflexivity.
  - destruct (handleClose_schedules w2) as (Ht & Hr & _).
    { change (reconnectAttemptsRef w2) with (reconnectAttemptsRef w1). lia. }
    change (timers w2) with (timers w1) in Ht, Hr.
    change (reconnectAttemptsRef w2) with (reconnectAttemptsRef w1) in Ht.
    rewrite Hlen in Hr. rewrite Hatt in Ht.
    split; [exact Hr|].
    unfold pending. rewrite Ht, pending_from_app. cbn [pending_from tstate delay].
    rewrite last_snoc, Hlen. reflexivity.
Qed.

Lemma disconnect_then_close_reschedules_witness :
  connectionStatus readyWorld = Ready /\
  exists w' : World,
    run [CallDisconnect; SocketClose 0] readyWorld = Some w' /\
    reconnectTimeoutRef w' = Some 1%nat /\
    last (pending w') = Some (1%nat, 1000).
Proof.
  split; [reflexivity|].
  destruct disconnect_then_close_reschedules as (Hlaw & _).
  apply (Hlaw readyWorld 0%nat OPEN); [reflexivity | reflexivity | discriminate |].
  vm_compute. reflexivity.
Defined.

(** *** The counter is a natural number

    [Math.pow(2, attempts)] is only ever applied to a counter that is 0 or
    was incremented from it. *)

Lemma disconnect_reconnectAttemptsRef (w : World) :
  reconnectAttemptsRef (disconnect w) = reconnectAttemptsRef w.
Proof.
  unfold disconnect.
  set (w0 := match reconnectTimeoutRef w with
             | Some (S _ as t) => set_reconnectTimeoutRef None (clearTimeout t w)
             | _ => w
             end).
  assert (H0 : reconnectAttemptsRef w0 = reconnectAttemptsRef w).
  { unfold w0. destruct (reconnectTimeoutRef w) as [[|t]|]; try reflexivity.
    apply (clearTimeout_preserves (S t) w). }
  rewrite <- H0. destruct (wsRef w0) as [ws|]; [|reflexivity].
  cbn. unfold ws_close. destruct (sockets w0 !! ws) as [[]|]; reflexivity.
Qed.

Lemma handleClose_reconnectAttemptsRef (w : World) :
  reconnectAttemptsRef (handleClose w) = reconnectAttemptsRef w.
Proof.
  destruct (Z.lt_ge_cases (reconnectAttemptsRef w) 5) as [Hlt|Hge].
  - apply (handleClose_schedules w Hlt).
  - apply (handleClose_gives_up w Hge).
Qed.

Lemma step_attempts_nonneg (e : Event) (w w' : World) :
  step e w = Some w' ->
  0 <= reconnectAttemptsRef w -> 0 <= reconnectAttemptsRef w'.
Proof.
  intros Hs Hn.
  destruct e as [ | | | | audioData | config | k | k d | k | k | t];
    cbn [step] in Hs.
  - injection Hs as <-. rewrite connect_reconnectAttemptsRef. exact Hn.
  - injection Hs as <-. rewrite disconnect_reconnectAttemptsRef. exact Hn.
  - injection Hs as <-. unfold startRecording.
    destruct (openTransport w); exact Hn.
  - injection Hs as <-. unfold stopRecording.
    destruct (openTransport w); exact Hn.
  - injection Hs as <-. unfold sendAudioChunk.
    destruct (openTransport w); exact Hn.
  - injection Hs as <-. unfold updateConfig.
    destruct (openTransport w); exact Hn.
  - destruct (sockets w !! k) as [[]|]; try discriminate.
    injection Hs as <-. exact Hn.
  - destruct (is_open k w); [|discriminate].
    injection Hs as <-. rewrite handleMessage_reconnectAttemptsRef.
    destruct (hasType "ready" d); [lia | exact Hn].
  - destruct (sockets w !! k) as [[]|]; try discriminate;
      injection Hs as <-; exact Hn.
  - destruct (sockets w !! k) as [[]|]; try discriminate;
      injection Hs as <-; rewrite handleClose_reconnectAttemptsRef; exact Hn.
  - destruct t as [|i]; [discriminate|].
    destruct (timers w !! i) as [[ms []]|]; try discriminate.
    injection Hs as <-. rewrite reconnectCallback_counts.
    change (0 <= reconnectAttemptsRef w + 1). lia.
Qed.

Lemma run_attempts_nonneg (es : list Event) (w w' : World) :
  run es w = Some w' ->
  0 <= reconnectAttemptsRef w -> 0 <= reconnectAttemptsRef w'.
Proof.
  revert w. induction es as [|e es IH]; intros w Hr Hn; cbn [run] in Hr.
  - injection Hr as <-. exact Hn.
  - destruct (step e w) as [w1|] eqn:He; [|discriminate].
    apply (IH w1 Hr). exact (step_attempts_nonneg e w w1 He Hn).
Qed.







End ReconnectFacts.

(* ===================================================================== *)
(** * The error message and the derived status *)
(* ===================================================================== *)

Section ErrorFacts.
Import Js Hook.

Lemma connect_keeps_ready (w : World) :
  connectionStatus (connect w) = Ready -> connectionStatus w = Ready.
Proof.
  unfold connect.
  destruct (match wsRef w with Some k => is_open k w | None => false end);
    [auto|].
  cbn. destruct (urlRejected w); cbn; discriminate.
Qed.

Lemma disconnect_connectionStatus (w : World) :
  connectionStatus (disconnect w) = Disconnected.
Proof. reflexivity. Qed.

Lemma handleClose_connectionStatus (w : World) :
  connectionStatus (handleClose w) = Disconnected.
Proof.
  unfold handleClose. cbn.
  destruct (reconnectAttemptsRef w <? 5); reflexivity.
Qed.

(** The only step that enters status ready is the delivery of a [ready]
    frame, and that step clears the error message. *)
Lemma step_enters_ready (e : Event) (w w' : World) :
  step e w = Some w' ->
  connectionStatus w <> Ready -> connectionStatus w' = Ready ->
  error w' = Null.
Proof.
  intros Hs Hn Hr.
  destruct e as [ | | | | audioData | config | k | k d | k | k | t];
    cbn [step] in Hs.
  - injection Hs as <-. apply connect_keeps_ready in Hr. contradiction.
  - injection Hs as <-. rewrite disconnect_connectionStatus in Hr. discriminate.
  - injection Hs as <-. unfold startRecording in Hr.
    destruct (openTransport w); cbn in Hr; contradiction.
  - injection Hs as <-. unfold stopRecording in Hr.
    destruct (openTransport w); cbn in Hr; contradiction.
  - injection Hs as <-. unfold sendAudioChunk in Hr.
    destruct (openTransport w); cbn in Hr; contradiction.
  - injection Hs as <-. unfold updateConfig in Hr.
    destruct (openTransport w); cbn in Hr; contradiction.
  - destruct (sockets w !! k) as [[]|]; try discriminate.
    injection Hs as <-. cbn in Hr. discriminate.
  - destruct (is_open k w); [|discriminate].
    injection Hs as <-.
    rewrite handleMessage_connectionStatus in Hr.
    rewrite handleMessage_error.
    destruct (hasType "ready" d); [reflexivity | contradiction].
  - destruct (sockets w !! k) as [[]|]; try discriminate;
      injection Hs as <-; cbn in Hr; discriminate.
  - destruct (sockets w !! k) as [[]|]; try discriminate;
      injection Hs as <-; rewrite handleClose_connectionStatus in Hr;
      discriminate.
  - destruct t as [|i]; [discriminate|].
    destruct (timers w !! i) as [[ms []]|]; try discriminate.
    injection Hs as <-. unfold reconnectCallback in Hr.
    apply connect_keeps_ready in Hr. contradiction.
Qed.

(** C9, as stated, fails: a [result] frame does not clear the error message
    left by an earlier [error] frame. *)
Lemma result_event_keeps_error :
  let w := handleMessage (withMessage "error" "boom") connectedNotReady in
  let r := Json (resultMessage "hello" "h") in
  hasType "result" r = true /\
  error w = Str "boom" /\
  error (handleMessage r w) = Str "boom" /\
  error (handleMessage r w) <> Null.
Proof. vm_compute. repeat split. discriminate. Qed.

(** C9, amended. An error message is cleared by a [ready] frame and by a
    [recording_started] frame, whichever comes first, in every state; every
    step that takes the connection status into ready clears it; a [result]
    frame leaves the error message as it was. *)
Theorem error_cleared_by_ready_or_recording_started (w : World) :
  (forall d : payload,
     hasType "ready" d = true \/ hasType "recording_started" d = true ->
     error (handleMessage d w) = Null) /\
  (forall (e : Event) (w' : World),
     step e w = Some w' ->
     connectionStatus w <> Ready -> connectionStatus w' = Ready ->
     error w' = Null) /\
  (forall d : payload,
     hasType "result" d = true -> error (handleMessage d w) = error w).
Proof.
  split; [|split].
  - intros d Hd. rewrite handleMessage_error.
    destruct Hd as [-> | ->]; [reflexivity|].
    rewrite orb_true_r. reflexivity.
  - intros e w'. apply step_enters_ready.
  - intros d Hd. rewrite handleMessage_error.
    destruct (hasType_inv _ _ Hd) as (message & -> & Hty).
    unfold hasType, frameType. cbn [JSON_parse]. rewrite Hty. reflexivity.
Qed.

Lemma error_cleared_by_ready_or_recording_started_witness :
  let w := handleMessage (withMessage "error" "boom") connectedNotReady in
  error w = Str "boom" /\
  error (handleMessage readyFrame w) = Null /\
  error (handleMessage (bare "recording_started") w) = Null /\
  (exists w' : World,
     step (SocketMessage 0 readyFrame) w = Some w' /\ error w' = Null) /\
  error (handleMessage (Json (resultMessage "hello" "h")) w) = Str "boom".
Proof.
  intros w.
  destruct (error_cleared_by_ready_or_recording_started w)
    as (Hclear & Hready & Hkeep).
  split; [reflexivity|].
  split; [apply Hclear; left; reflexivity|].
  split; [apply Hclear; right; reflexivity|].
  split.
  - exists (handleMessage readyFrame w). split; [reflexivity|].
    apply (Hready (SocketMessage 0 readyFrame)); [reflexivity | discriminate |].
    reflexivity.
  - exact (Hkeep (Json (resultMessage "hello" "h")) eq_refl).
Defined.

End ErrorFacts.

Section StatusFacts.
Import Js Hook Status.

(** C7, as stated, fails: with the error message set to the empty string and
    processing true, the derived status is processing.  The state is reached
    by an [error] frame with an empty message followed by a [processing]
    frame. *)
Lemma empty_error_message_yields_processing :
  let w := handleMessages [withMessage "error" ""; bare "processing"]
             connectedNotReady in
  error w = Str "" /\
  error w <> Null /\
  isProcessing w = true /\
  statusOf w = SProcessing /\
  status (Str "") true Null false = SProcessing.
Proof. vm_compute. repeat split. discriminate. Qed.

(** The latest result is [null] or a parsed object, so its truthiness is its
    presence. *)
Lemma typed_message_is_object (message : js) (lit : string) :
  prop message "type" = Some (Str lit) -> exists fs, message = Obj fs.
Proof. destruct message; cbn; try discriminate. eauto. Qed.

Lemma handleMessage_result_shape (d : payload) (w : World) :
  nullOrObject (result w) -> nullOrObject (result (handleMessage d w)).
Proof.
  intros Hw. rewrite handleMessage_result.
  destruct (hasType "recording_started" d); [left; reflexivity|].
  unfold resultsOf. cbn [List.filter].
  destruct (hasType "result" d) eqn:Hd; [|exact Hw].
  destruct (hasType_inv _ _ Hd) as (message & -> & Hty).
  right. exact (typed_message_is_object message "result" Hty).
Qed.

Lemma disconnect_result (w : World) : result (disconnect w) = result w.
Proof.
  unfold disconnect.
  set (w0 := match reconnectTimeoutRef w with
             | Some (S _ as t) => set_reconnectTimeoutRef None (clearTimeout t w)
             | _ => w
             end).
  assert (H0 : result w0 = result w).
  { unfold w0. destruct (reconnectTimeoutRef w) as [[|t]|]; try reflexivity.
    cbn. destruct (timers w !! t) as [[ms []]|]; reflexivity. }
  rewrite <- H0. destruct (wsRef w0) as [ws|]; [|reflexivity].
  cbn. unfold ws_close. destruct (sockets w0 !! ws) as [[]|]; reflexivity.
Qed.

Lemma step_result_shape (e : Event) (w w' : World) :
  step e w = Some w' -> nullOrObject (result w) -> nullOrObject (result w').
Proof.
  intros Hs Hw.
  destruct e as [ | | | | audioData | config | k | k d | k | k | t];
    cbn [step] in Hs.
  - injection Hs as <-. unfold connect.
    destruct (match wsRef w with Some k => is_open k w | None => false end);
      [exact Hw|].
    cbn. destruct (urlRejected w); exact Hw.
  - injection Hs as <-. rewrite disconnect_result. exact Hw.
  - injection Hs as <-. unfold startRecording.
    destruct (openTransport w); [left; reflexivity | exact Hw].
  - injection Hs as <-. unfold stopRecording.
    destruct (openTransport w); exact Hw.
  - injection Hs as <-. unfold sendAudioChunk.
    destruct (openTransport w); exact Hw.
  - injection Hs as <-. unfold updateConfig.
    destruct (openTransport w); exact Hw.
  - destruct (sockets w !! k) as [[]|]; try discriminate.
    injection Hs as <-. exact Hw.
  - destruct (is_open k w); [|discriminate].
    injection Hs as <-. apply handleMessage_result_shape, Hw.
  - destruct (sockets w !! k) as [[]|]; try discriminate;
      injection Hs as <-; exact Hw.
  - destruct (sockets w !! k) as [[]|]; try discriminate;
      injection Hs as <-; unfold handleClose; cbn;
      destruct (reconnectAttemptsRef w <? 5); exact Hw.
  - destruct t as [|i]; [discriminate|].
    destruct (timers w !! i) as [[ms []]|]; try discriminate.
    injection Hs as <-. unfold reconnectCallback, connect. cbn.
    destruct (match wsRef w with Some k => is_open k _ | None => false end);
      [exact Hw|].
    cbn. destruct (urlRejected w); exact Hw.
Qed.

Lemma run_result_present (es : list Event) (w : World) :
  run es (initial false) = Some w ->
  truthy (result w) = true <-> result w <> Null.
Proof.
  intros Hr.
  assert (Hshape : nullOrObject (result w)).
  { assert (Hgen : forall es w0 w1, run es w0 = Some w1 ->
                     nullOrObject (result w0) -> nullOrObject (result w1)).
    { clear. induction es as [|e es IH]; intros w0 w1 Hr H0; cbn [run] in Hr.
      - injection Hr as <-. exact H0.
      - destruct (step e w0) as [w2|] eqn:He; [|discriminate].
        apply (IH w2 w1 Hr). exact (step_result_shape e w0 w2 He H0). }
    apply (Hgen es (initial false) w Hr). left. reflexivity. }
  destruct Hshape as [-> | (fs & ->)]; cbn; split; congruence.
Qed.

Lemma truthy_Str (s : string) : truthy (Str s) = true <-> s <> "".
Proof.
  cbn. destruct (String.eqb_spec s ""); cbn; split; congruence.
Qed.

(** C7, amended. The derived status is a function of the four values with
    precedence error > processing > result present > recording > idle, first
    match wins, where the error and the result are tested for truthiness: in
    particular, for every flag combination with a non-empty error message and
    processing true, the status is error, not processing. *)
Theorem status_precedence (wsError : js) (processing : bool) (latest : js)
    (recording : bool) :
  let st := status wsError processing latest recording in
  (truthy wsError = true -> st = SError) /\
  (truthy wsError = false -> processing = true -> st = SProcessing) /\
  (truthy wsError = false -> processing = false ->
     truthy latest = true -> st = SSuccess) /\
  (truthy wsError = false -> processing = false ->
     truthy latest = false -> recording = true -> st = SListening) /\
  (truthy wsError = false -> processing = false ->
     truthy latest = false -> recording = false -> st = SIdle) /\
  (forall s : string,
     wsError = Str s -> s <> "" -> processing = true -> st = SError).
Proof.
  intros st. unfold st, status.
  repeat split.
  - intros ->. reflexivity.
  - intros -> ->. reflexivity.
  - intros -> -> ->. reflexivity.
  - intros -> -> -> ->. reflexivity.
  - intros -> -> -> ->. reflexivity.
  - intros s -> Hs _. apply truthy_Str in Hs. rewrite Hs. reflexivity.
Qed.

Lemma status_precedence_witness :
  status (Str "Connection error occurred") true Null true = SError /\
  status Null true (resultMessage "hello" "h") true = SProcessing /\
  status Null false (resultMessage "hello" "h") true = SSuccess /\
  status Null false Null true = SListening /\
  status Null false Null false = SIdle /\
  status (Str "Not connected to server") true (resultMessage "hello" "h") false
    = SError.
Proof.
  split.
  { apply (status_precedence (Str "Connection error occurred") true Null true).
    reflexivity. }
  split.
  { apply (status_precedence Null true (resultMessage "hello" "h") true);
      reflexivity. }
  split.
  { apply (status_precedence Null false (resultMessage "hello" "h") true);
      reflexivity. }
  split.
  { apply (status_precedence Null false Null true); reflexivity. }
  split.
  { apply (status_precedence Null false Null false); reflexivity. }
  destruct (status_precedence (Str "Not connected to server") true
              (resultMessage "hello" "h") false) as (_ & _ & _ & _ & _ & H).
  apply (H "Not connected to server"); [reflexivity | discriminate | reflexivity].
Defined.

End StatusFacts.

(* ===================================================================== *)
(** * Further properties of the hook: what is sent *)
(* ===================================================================== *)

(** Case analysis on every branch a handler takes. *)
Ltac handler_cases :=
  unfold Hook.reconnectCallback in *;
  unfold Hook.connect, Hook.disconnect, Hook.startRecording,
    Hook.stopRecording, Hook.sendAudioChunk, Hook.updateConfig,
    Hook.handleClose, Hook.handleError, Hook.handleOpen, Hook.openTransport,
    Hook.is_open, Hook.ws_close, Hook.clearTimeout, Hook.newWebSocket,
    Hook.setTimeout, Hook.ws_send in *;
  cbn in *;
  repeat (match goal with
          | |- context [match ?x with _ => _ end] => destruct x eqn:?
          end; cbn in *).

Section StreamingFacts.
Import Js Hook Session.

Lemma set_sent_same (w : World) : set_sent (sent w) w = w.
Proof. destruct w; reflexivity. Qed.

Lemma sendAudioChunks_dropped (chunks : list (list Z)) (w : World) :
  openTransport w = None -> sendAudioChunks chunks w = w.
Proof.
  intros Hnone. induction chunks as [|c chunks IH]; [reflexivity|].
  change (sendAudioChunks (c :: chunks) w)
    with (sendAudioChunks chunks (sendAudioChunk c w)).
  unfold sendAudioChunk at 1. rewrite Hnone. exact IH.
Qed.

(** X1. Audio chunks handed to [sendAudioChunk] while the hook holds an OPEN
    transport are sent on it as binary frames, one per chunk, in the order
    produced, and nothing else in the state changes; while it holds no OPEN
    transport every chunk is dropped and the state is left as it was (no
    error is reported, nothing is queued). *)
Theorem audio_chunks_sent_in_order (chunks : list (list Z)) (w : World) :
  (forall ws : nat,
     wsRef w = Some ws -> sockets w !! ws = Some OPEN ->
     sendAudioChunks chunks w =
     set_sent (sent w ++ map (fun audioData => (ws, Binary audioData)) chunks) w) /\
  (openTransport w = None -> sendAudioChunks chunks w = w).
Proof.
  split.
  - intros ws Href Hopen. revert w Href Hopen.
    induction chunks as [|c chunks IH]; intros w Href Hopen.
    + cbn. rewrite app_nil_r. symmetry. apply set_sent_same.
    + change (sendAudioChunks (c :: chunks) w)
        with (sendAudioChunks chunks (sendAudioChunk c w)).
      assert (Hc : sendAudioChunk c w = set_sent (sent w ++ [(ws, Binary c)]) w).
      { unfold sendAudioChunk, openTransport, is_open. rewrite Href, Hopen.
        reflexivity. }
      rewrite Hc, (IH (set_sent (sent w ++ [(ws, Binary c)]) w) Href Hopen).
      cbn [map].
      change (sent (set_sent (sent w ++ [(ws, Binary c)]) w))
        with (sent w ++ [(ws, Binary c)]).
      rewrite <- app_assoc. reflexivity.
  - apply sendAudioChunks_dropped.
Qed.

Lemma audio_chunks_sent_in_order_witness :
  sent (sendAudioChunks [[1; 2]; [3]; []] readyWorld) =
    [(0%nat, Binary [1; 2]); (0%nat, Binary [3]); (0%nat, Binary [])] /\
  sendAudioChunks [[1; 2]; [3]; []] (disconnect readyWorld) =
    disconnect readyWorld.
Proof.
  destruct (audio_chunks_sent_in_order [[1; 2]; [3]; []] readyWorld) as [Hopen _].
  destruct (audio_chunks_sent_in_order [[1; 2]; [3]; []] (disconnect readyWorld))
    as [_ Hclosed].
  split.
  - rewrite (Hopen 0%nat eq_refl eq_refl). reflexivity.
  - apply Hclosed. vm_compute. reflexivity.
Defined.

Lemma handleMessage_sent (d : payload) (w : World) :
  sent (handleMessage d w) = sent w.
Proof. by_frame d; reflexivity. Qed.

(** X2. A step appends exactly one frame to what was sent when it is one of
    the four sending calls (startRecording, stopRecording, sendAudioChunk,
    updateConfig) made while the hook holds an OPEN transport, and the frame
    goes to that transport; every other step (connect, disconnect, any socket
    event, any inbound frame, any timer) sends nothing. *)
Theorem frames_sent_only_on_open_transport (e : Event) (w w' : World) :
  step e w = Some w' ->
  sent w' =
  match outboundOf e, openTransport w with
  | Some frame, Some ws => sent w ++ [(ws, frame)]
  | _, _ => sent w
  end.
Proof.
  intros Hs.
  destruct e as [ | | | | audioData | config | k | k d | k | k | t];
    cbn [step outboundOf] in *.
  - injection Hs as <-. handler_cases; reflexivity.
  - injection Hs as <-. handler_cases; reflexivity.
  - injection Hs as <-. unfold startRecording.
    destruct (openTransport w); reflexivity.
  - injection Hs as <-. unfold stopRecording.
    destruct (openTransport w); reflexivity.
  - injection Hs as <-. unfold sendAudioChunk.
    destruct (openTransport w); reflexivity.
  - injection Hs as <-. unfold updateConfig.
    destruct (openTransport w); reflexivity.
  - destruct (sockets w !! k) as [[]|]; try discriminate.
    injection Hs as <-. reflexivity.
  - destruct (is_open k w); [|discriminate].
    injection Hs as <-. apply handleMessage_sent.
  - destruct (sockets w !! k) as [[]|]; try discriminate;
      injection Hs as <-; reflexivity.
  - destruct (sockets w !! k) as [[]|]; try discriminate;
      injection Hs as <-; handler_cases; reflexivity.
  - destruct t as [|i]; [discriminate|].
    destruct (timers w !! i) as [[ms []]|]; try discriminate.
    injection Hs as <-. handler_cases; reflexivity.
Qed.

Lemma frames_sent_only_on_open_transport_witness :
  (exists w' : World,
     step (CallUpdateConfig Null) readyWorld = Some w' /\
     sent w' = [(0%nat, configMessage Null)]) /\
  (exists w' : World,
     step (SocketMessage 0 (bare "config_updated")) readyWorld = Some w' /\
     sent w' = []) /\
  (exists w' : World,
     step CallStopRecording (initial false) = Some w' /\ sent w' = []).
Proof.
  assert (H1 : step (CallUpdateConfig Null) readyWorld =
               Some (updateConfig Null readyWorld)) by reflexivity.
  assert (H2 : step (SocketMessage 0 (bare "config_updated")) readyWorld =
               Some (handleMessage (bare "config_updated") readyWorld))
    by (vm_compute; reflexivity).
  assert (H3 : step CallStopRecording (initial false) =
               Some (stopRecording (initial false))) by reflexivity.
  split; [|split].
  - eexists. split; [exact H1|].
    rewrite (frames_sent_only_on_open_transport _ _ _ H1). vm_compute. reflexivity.
  - eexists. split; [exact H2|].
    rewrite (frames_sent_only_on_open_transport _ _ _ H2). vm_compute. reflexivity.
  - eexists. split; [exact H3|].
    rewrite (frames_sent_only_on_open_transport _ _ _ H3). vm_compute. reflexivity.
Defined.

End StreamingFacts.

(* ===================================================================== *)
(** * Further properties of the hook: timers and the transport *)
(* ===================================================================== *)

Section TimerFacts.
Import Js Hook Session.

Lemma disconnect_steps (w : World) :
  disconnect w =
  setIsProcessing false
    (setIsSpeaking false
       (setIsRecording false
          (setConnectionStatus Disconnected
             (closeTransport (cancelReconnect w))))).
Proof. reflexivity. Qed.

Lemma closeTransport_timers (w : World) : timers (closeTransport w) = timers w.
Proof.
  unfold closeTransport, ws_close. destruct (wsRef w) as [ws|]; [|reflexivity].
  cbn. destruct (sockets w !! ws) as [[]|]; reflexivity.
Qed.


Lemma disconnect_timers (w : World) :
  timers (disconnect w) = timers (cancelReconnect w).
Proof. rewrite disconnect_steps. cbn. apply closeTransport_timers. Qed.

(** Changing the state of a timer keeps its delay. *)
Lemma map_delay_insert (ts : list Timer) (i : nat) (ms : Z) (s s' : TimerState) :
  ts !! i = Some {| delay := ms; tstate := s |} ->
  map delay (<[i := {| delay := ms; tstate := s' |}]> ts) = map delay ts.
Proof.
  revert i. induction ts as [|tm ts IH]; intros [|i] Hi; try discriminate.
  - injection Hi as ->. reflexivity.
  - cbn. f_equal. apply IH. exact Hi.
Qed.

Lemma cancelReconnect_scheduledDelays (w : World) :
  scheduledDelays (cancelReconnect w) = scheduledDelays w.
Proof.
  unfold cancelReconnect, clearTimeout, scheduledDelays.
  destruct (reconnectTimeoutRef w) as [[|i]|]; try reflexivity.
  destruct (timers w !! i) as [[ms []]|] eqn:Hi; try reflexivity.
  cbn. eapply map_delay_insert. exact Hi.
Qed.





(** *** Which steps arm a timer *)

Lemma handleMessage_timers (d : payload) (w : World) :
  timers (handleMessage d w) = timers w.
Proof. by_frame d; reflexivity. Qed.

Lemma connect_scheduledDelays (w : World) :
  scheduledDelays (connect w) = scheduledDelays w.
Proof. unfold scheduledDelays. rewrite connect_timers. reflexivity. Qed.

Lemma handleClose_scheduledDelays (w : World) :
  scheduledDelays (handleClose w) =
  scheduledDelays w ++
  (if reconnectAttemptsRef w <? 5
   then [reconnectDelay (reconnectAttemptsRef w)]
   else []).
Proof.
  unfold scheduledDelays.
  destruct (Z.ltb_spec (reconnectAttemptsRef w) 5) as [Hlt|Hge].
  - destruct (handleClose_schedules w Hlt) as (-> & _).
    rewrite map_app. reflexivity.
  - destruct (handleClose_gives_up w Hge) as (-> & _).
    rewrite app_nil_r. reflexivity.
Qed.

Lemma step_scheduledDelays (e : Event) (w w' : World) :
  step e w = Some w' ->
  scheduledDelays w' =
  scheduledDelays w ++
  match e with
  | SocketClose _ =>
    if reconnectAttemptsRef w <? 5
    then [reconnectDelay (reconnectAttemptsRef w)]
    else []
  | _ => []
  end.
Proof.
  intros Hs.
  destruct e as [ | | | | audioData | config | k | k d | k | k | t];
    cbn [step] in Hs; rewrite ?app_nil_r.
  - injection Hs as <-. apply connect_scheduledDelays.
  - injection Hs as <-. unfold scheduledDelays at 1.
    rewrite disconnect_timers. apply cancelReconnect_scheduledDelays.
  - injection Hs as <-. unfold startRecording.
    destruct (openTransport w); reflexivity.
  - injection Hs as <-. unfold stopRecording.
    destruct (openTransport w); reflexivity.
  - injection Hs as <-. unfold sendAudioChunk.
    destruct (openTransport w); reflexivity.
  - injection Hs as <-. unfold updateConfig.
    destruct (openTransport w); reflexivity.
  - destruct (sockets w !! k) as [[]|]; try discriminate.
    injection Hs as <-. reflexivity.
  - destruct (is_open k w); [|discriminate].
    injection Hs as <-. unfold scheduledDelays.
    rewrite handleMessage_timers. reflexivity.
  - destruct (sockets w !! k) as [[]|]; try discriminate;
      injection Hs as <-; reflexivity.
  - destruct (sockets w !! k) as [[]|]; try discriminate;
      injection Hs as <-; rewrite handleClose_scheduledDelays; reflexivity.
  - destruct t as [|i]; [discriminate|].
    destruct (timers w !! i) as [[ms []]|] eqn:Hi; try discriminate.
    injection Hs as <-. unfold reconnectCallback.
    rewrite connect_scheduledDelays. unfold scheduledDelays. cbn.
    eapply map_delay_insert. exact Hi.
Qed.

Lemma reconnectDelay_range (n : Z) :
  0 <= n -> 1000 <= reconnectDelay n <= 10000.
Proof.
  intros Hn. unfold reconnectDelay.
  assert (0 < 2 ^ n) by (apply Z.pow_pos_nonneg; lia). lia.
Qed.

(** X4. Timers are armed by close events only, one per close, and in every
    state the hook can reach from its initial state the attempt counter is
    not negative and every reconnection delay ever scheduled lies between
    1000 ms and 10000 ms. *)
Theorem scheduled_delays_in_range (es : list Event) (rejected : bool) (w : World) :
  run es (initial rejected) = Some w ->
  0 <= reconnectAttemptsRef w /\
  delaysInRange w /\
  (length (scheduledDelays w) <=
   length (List.filter (fun e => match e with SocketClose _ => true | _ => false end)
                       es))%nat.
Proof.
  assert (Hgen : forall es w0 w1,
            run es w0 = Some w1 ->
            0 <= reconnectAttemptsRef w0 -> delaysInRange w0 ->
            0 <= reconnectAttemptsRef w1 /\ delaysInRange w1 /\
            (length (scheduledDelays w1) <=
             length (scheduledDelays w0) +
             length (List.filter
                       (fun e => match e with SocketClose _ => true | _ => false end)
                       es))%nat).
  { clear. induction es as [|e es IH]; intros w0 w1 Hr Hn Hd; cbn [run] in Hr.
    - injection Hr as <-. cbn. split; [exact Hn|]. split; [exact Hd | lia].
    - destruct (step e w0) as [w2|] eqn:He; [|discriminate].
      pose proof (step_attempts_nonneg e w0 w2 He Hn) as Hn2.
      pose proof (step_scheduledDelays e w0 w2 He) as Hd2.
      assert (Hrange2 : delaysInRange w2).
      { unfold delaysInRange in *. rewrite Hd2. apply Forall_app. split; [exact Hd|].
        destruct e; try constructor.
        destruct (reconnectAttemptsRef w0 <? 5); repeat constructor;
          apply reconnectDelay_range; exact Hn. }
      destruct (IH w2 w1 Hr Hn2 Hrange2) as (Ha & Hb & Hc).
      split; [exact Ha|]. split; [exact Hb|].
      rewrite Hd2, length_app in Hc. cbn [List.filter].
      destruct e; cbn [length] in *; try lia.
      destruct (reconnectAttemptsRef w0 <? 5); cbn [length] in *; lia. }
  intros Hr.
  destruct (Hgen es (initial rejected) w Hr) as (Ha & Hb & Hc).
  - cbn. lia.
  - constructor.
  - split; [exact Ha|]. split; [exact Hb|]. exact Hc.
Qed.

Lemma scheduled_delays_in_range_witness :
  0 <= reconnectAttemptsRef atCeiling /\
  delaysInRange atCeiling /\
  (length (scheduledDelays atCeiling) <= 6)%nat.
Proof.
  apply (scheduled_delays_in_range fiveFailures false atCeiling).
  vm_compute. reflexivity.
Defined.

End TimerFacts.

(* ===================================================================== *)
(** * Further properties of the hook: the connection state machine *)
(* ===================================================================== *)

Section MachineFacts.
Import Js Hook Session.

Lemma connect_guard (w : World) :
  match wsRef w with Some k => is_open k w | None => false end =
  match openTransport w with Some _ => true | None => false end.
Proof.
  unfold openTransport. destruct (wsRef w) as [k|]; [|reflexivity].
  destruct (is_open k w); reflexivity.
Qed.

Lemma connect_connectionStatus (w : World) :
  connectionStatus (connect w) =
  match openTransport w with
  | Some _ => connectionStatus w
  | None => if urlRejected w then Error else Connecting
  end.
Proof.
  unfold connect. rewrite connect_guard.
  destruct (openTransport w); [reflexivity|].
  cbn. destruct (urlRejected w); reflexivity.
Qed.

(** X5. The connection status after a step is a function of the event and
    the state before it: connect() and a firing reconnection timer leave it
    alone when an OPEN transport is held, else give connecting (error when the
    WebSocket constructor throws); disconnect() and every close event give
    disconnected; an open event gives connected; an error event gives error;
    an inbound frame gives ready when its type is 'ready' and changes nothing
    otherwise; the four sending calls never change it. *)
Theorem connectionStatus_after_step (e : Event) (w w' : World) :
  step e w = Some w' ->
  connectionStatus w' =
  match e with
  | CallConnect | TimerFires _ =>
    match openTransport w with
    | Some _ => connectionStatus w
    | None => if urlRejected w then Error else Connecting
    end
  | CallDisconnect | SocketClose _ => Disconnected
  | SocketOpen _ => Connected
  | SocketError _ => Error
  | SocketMessage _ d => if hasType "ready" d then Ready else connectionStatus w
  | CallStartRecording | CallStopRecording | CallSendAudioChunk _
  | CallUpdateConfig _ => connectionStatus w
  end.
Proof.
  intros Hs.
  destruct e as [ | | | | audioData | config | k | k d | k | k | t];
    cbn [step] in Hs.
  - injection Hs as <-. apply connect_connectionStatus.
  - injection Hs as <-. apply disconnect_connectionStatus.
  - injection Hs as <-. unfold startRecording.
    destruct (openTransport w); reflexivity.
  - injection Hs as <-. unfold stopRecording.
    destruct (openTransport w); reflexivity.
  - injection Hs as <-. unfold sendAudioChunk.
    destruct (openTransport w); reflexivity.
  - injection Hs as <-. unfold updateConfig.
    destruct (openTransport w); reflexivity.
  - destruct (sockets w !! k) as [[]|]; try discriminate.
    injection Hs as <-. reflexivity.
  - destruct (is_open k w); [|discriminate].
    injection Hs as <-. apply handleMessage_connectionStatus.
  - destruct (sockets w !! k) as [[]|]; try discriminate;
      injection Hs as <-; reflexivity.
  - destruct (sockets w !! k) as [[]|]; try discriminate;
      injection Hs as <-; apply handleClose_connectionStatus.
  - destruct t as [|i]; [discriminate|].
    destruct (timers w !! i) as [[ms []]|]; try discriminate.
    injection Hs as <-. unfold reconnectCallback.
    rewrite connect_connectionStatus. reflexivity.
Qed.

Lemma connectionStatus_after_step_witness :
  (exists w' : World,
     step (SocketError 0) readyWorld = Some w' /\ connectionStatus w' = Error) /\
  (exists w' : World,
     step CallConnect readyWorld = Some w' /\ connectionStatus w' = Ready) /\
  (exists w' : World,
     step CallConnect (initial true) = Some w' /\ connectionStatus w' = Error) /\
  (exists w' : World,
     step (TimerFires 1) waitingToReconnect = Some w' /\
     connectionStatus w' = Connecting).
Proof.
  assert (H1 : step (SocketError 0) readyWorld = Some (handleError readyWorld))
    by (vm_compute; reflexivity).
  assert (H2 : step CallConnect readyWorld = Some (connect readyWorld))
    by (vm_compute; reflexivity).
  assert (H3 : step CallConnect (initial true) = Some (connect (initial true)))
    by (vm_compute; reflexivity).
  destruct (step (TimerFires 1) waitingToReconnect) as [w4|] eqn:H4;
    [|vm_compute in H4; discriminate].
  split; [|split; [|split]].
  - eexists. split; [exact H1|].
    rewrite (connectionStatus_after_step _ _ _ H1). reflexivity.
  - eexists. split; [exact H2|].
    rewrite (connectionStatus_after_step _ _ _ H2). vm_compute. reflexivity.
  - eexists. split; [exact H3|].
    rewrite (connectionStatus_after_step _ _ _ H3). vm_compute. reflexivity.
  - exists w4. split; [reflexivity|].
    rewrite (connectionStatus_after_step _ _ _ H4). vm_compute. reflexivity.
Defined.

Lemma connect_keeps_results (w : World) :
  accumulatedResults (connect w) = accumulatedResults w /\
  result (connect w) = result w /\
  statusInfo (connect w) = statusInfo w.
Proof.
  unfold connect. rewrite connect_guard.
  destruct (openTransport w); [repeat split|].
  cbn. destruct (urlRejected w); repeat split.
Qed.

(** X6. [connect()] while an OPEN transport is held changes nothing at all
    (no second socket).  When none is held and the WebSocket constructor
    throws, the only changes are the error message 'Failed to establish
    connection' and the status error: no socket is created and the ref keeps
    its value.  In every case [connect()] arms no timer, cancels none, sends
    nothing and keeps the results. *)
Theorem connect_outcomes (w : World) :
  (forall ws : nat, openTransport w = Some ws -> connect w = w) /\
  (openTransport w = None -> urlRejected w = true ->
     connect w =
     setConnectionStatus Error
       (setError (Str "Failed to establish connection") w)) /\
  timers (connect w) = timers w /\
  reconnectTimeoutRef (connect w) = reconnectTimeoutRef w /\
  sent (connect w) = sent w /\
  accumulatedResults (connect w) = accumulatedResults w /\
  result (connect w) = result w.
Proof.
  unfold connect. rewrite connect_guard.
  destruct (openTransport w) as [ws|].
  - repeat split. intros H. discriminate.
  - cbn. destruct (urlRejected w) eqn:Hurl.
    + repeat split; discriminate.
    + repeat split; discriminate.
Qed.

Lemma connect_outcomes_witness :
  connect readyWorld = readyWorld /\
  connect (initial true) =
    setConnectionStatus Error
      (setError (Str "Failed to establish connection") (initial true)) /\
  sockets (connect (initial true)) = [].
Proof.
  destruct (connect_outcomes readyWorld) as (Hopen & _).
  destruct (connect_outcomes (initial true)) as (_ & Hthrow & _).
  split; [apply (Hopen 0%nat); vm_compute; reflexivity|].
  split; [apply Hthrow; reflexivity|].
  rewrite (Hthrow eq_refl eq_refl). reflexivity.
Defined.

(** *** Inbound frames *)

Lemma handleMessage_transport (d : payload) (w : World) :
  wsRef (handleMessage d w) = wsRef w /\
  reconnectTimeoutRef (handleMessage d w) = reconnectTimeoutRef w /\
  sockets (handleMessage d w) = sockets w /\
  urlRejected (handleMessage d w) = urlRejected w.
Proof. by_frame d; repeat split. Qed.

Lemma handleMessage_isProcessing (d : payload) (w : World) :
  isProcessing (handleMessage d w) =
  if hasType "processing" d then true
  else if hasType "result" d || hasType "error" d then false
  else isProcessing w.
Proof. by_frame d; reflexivity. Qed.

(** X7. No inbound frame touches the transport side of the hook: the socket
    ref, the sockets, the timer ref, the timers and the frames sent are the
    same after [handleMessage] as before, whatever the frame.  In particular
    an [error] frame from the server leaves the connection open and the
    connection status unchanged; it stores [message.message] as the error
    message and clears the processing flag. *)
Theorem inbound_frames_leave_transport_alone (d : payload) (w : World) :
  (wsRef (handleMessage d w) = wsRef w /\
   sockets (handleMessage d w) = sockets w /\
   reconnectTimeoutRef (handleMessage d w) = reconnectTimeoutRef w /\
   timers (handleMessage d w) = timers w /\
   sent (handleMessage d w) = sent w) /\
  (hasType "error" d = true ->
     connectionStatus (handleMessage d w) = connectionStatus w /\
     openTransport (handleMessage d w) = openTransport w /\
     isProcessing (handleMessage d w) = false /\
     exists message : js,
       d = Json message /\
       error (handleMessage d w) = field message "message").
Proof.
  destruct (handleMessage_transport d w) as (Href & Htref & Hsock & _).
  split.
  - repeat split; auto using handleMessage_timers, handleMessage_sent.
  - intros Hd.
    destruct (hasType_inv _ _ Hd) as (message & -> & Hty).
    assert (Hother : forall lit, lit <> "error" ->
              hasType lit (Json message) = false).
    { intros lit Hne. unfold hasType, frameType. cbn [JSON_parse].
      rewrite Hty. cbn [is_str]. apply String.eqb_neq. congruence. }
    split.
    { rewrite handleMessage_connectionStatus, Hother by discriminate.
      reflexivity. }
    split.
    { unfold openTransport, is_open. rewrite Href, Hsock. reflexivity. }
    split.
    { rewrite handleMessage_isProcessing, Hd, (Hother "processing") by discriminate.
      rewrite orb_true_r. reflexivity. }
    exists message. split; [reflexivity|].
    rewrite handleMessage_error, Hd, !Hother by discriminate. reflexivity.
Qed.

Lemma inbound_frames_leave_transport_alone_witness :
  let w := handleMessage (withMessage "error" "model failed") readyWorld in
  connectionStatus w = Ready /\
  openTransport w = Some 0%nat /\
  isProcessing w = false /\
  error w = Js.Str "model failed".
Proof.
  intros w.
  destruct (inbound_frames_leave_transport_alone
              (withMessage "error" "model failed") readyWorld) as (_ & Herr).
  destruct (Herr eq_refl) as (Hst & Hopen & Hproc & message & Hm & Hmsg).
  split; [exact Hst|]. split; [exact Hopen|]. split; [exact Hproc|].
  injection Hm as <-. exact Hmsg.
Defined.

(** *** What survives a lost connection *)

Lemma closeTransport_state (w : World) :
  accumulatedResults (closeTransport w) = accumulatedResults w /\
  result (closeTransport w) = result w /\
  statusInfo (closeTransport w) = statusInfo w /\
  error (closeTransport w) = error w.
Proof.
  unfold closeTransport, ws_close. destruct (wsRef w) as [ws|]; [|repeat split].
  cbn. destruct (sockets w !! ws) as [[]|]; repeat split.
Qed.

Lemma cancelReconnect_state (w : World) :
  accumulatedResults (cancelReconnect w) = accumulatedResults w /\
  result (cancelReconnect w) = result w /\
  statusInfo (cancelReconnect w) = statusInfo w /\
  error (cancelReconnect w) = error w.
Proof.
  unfold cancelReconnect, clearTimeout.
  destruct (reconnectTimeoutRef w) as [[|i]|]; try (repeat split; fail).
  destruct (timers w !! i) as [[ms []]|]; repeat split.
Qed.

Lemma disconnect_state (w : World) :
  accumulatedResults (disconnect w) = accumulatedResults w /\
  result (disconnect w) = result w /\
  statusInfo (disconnect w) = statusInfo w /\
  error (disconnect w) = error w.
Proof.
  rewrite disconnect_steps.
  destruct (closeTransport_state (cancelReconnect w)) as (Ha & Hr & Hs & He).
  destruct (cancelReconnect_state w) as (Ha' & Hr' & Hs' & He').
  cbn. rewrite Ha, Hr, Hs, He. repeat split; assumption.
Qed.

Lemma handleClose_state (w : World) :
  accumulatedResults (handleClose w) = accumulatedResults w /\
  result (handleClose w) = result w /\
  statusInfo (handleClose w) = statusInfo w.
Proof.
  unfold handleClose. cbn.
  destruct (reconnectAttemptsRef w <? 5); repeat split.
Qed.

(** X8. The accumulated results are changed by inbound frames only: every
    call (connect, disconnect, startRecording, stopRecording, sendAudioChunk,
    updateConfig), every open, error and close event and every timer leaves
    the accumulation as it was, and all of them except startRecording() leave
    the latest result and the status snapshot as they were.  A disconnect()
    and a close event reset the recording, speaking and processing flags. *)
Theorem results_survive_connection_events (e : Event) (w w' : World) :
  step e w = Some w' ->
  (forall (k : nat) (d : payload), e <> SocketMessage k d) ->
  accumulatedResults w' = accumulatedResults w /\
  (e <> CallStartRecording ->
     result w' = result w /\ statusInfo w' = statusInfo w) /\
  (e = CallDisconnect \/ (exists k : nat, e = SocketClose k) ->
     isRecording w' = false /\ isSpeaking w' = false /\ isProcessing w' = false).
Proof.
  intros Hs Hnot.
  destruct e as [ | | | | audioData | config | k | k d | k | k | t];
    cbn [step] in Hs.
  - injection Hs as <-.
    destruct (connect_keeps_results w) as (Ha & Hr & Hst).
    split; [exact Ha|]. split; [auto|].
    intros [H | (k & H)]; discriminate.
  - injection Hs as <-.
    destruct (disconnect_state w) as (Ha & Hr & Hst & _).
    split; [exact Ha|]. split; [auto|].
    intros _. rewrite disconnect_steps. repeat split.
  - injection Hs as <-. unfold startRecording.
    destruct (openTransport w); (split; [reflexivity|]);
      (split; [congruence | intros [H | (k & H)]; discriminate]).
  - injection Hs as <-. unfold stopRecording.
    destruct (openTransport w); (split; [reflexivity|]);
      (split; [auto | intros [H | (k & H)]; discriminate]).
  - injection Hs as <-. unfold sendAudioChunk.
    destruct (openTransport w); (split; [reflexivity|]);
      (split; [auto | intros [H | (k & H)]; discriminate]).
  - injection Hs as <-. unfold updateConfig.
    destruct (openTransport w); (split; [reflexivity|]);
      (split; [auto | intros [H | (k & H)]; discriminate]).
  - destruct (sockets w !! k) as [[]|]; try discriminate.
    injection Hs as <-. split; [reflexivity|].
    split; [auto | intros [H | (k' & H)]; discriminate].
  - exfalso. exact (Hnot k d eq_refl).
  - destruct (sockets w !! k) as [[]|]; try discriminate;
      injection Hs as <-; (split; [reflexivity|]);
      (split; [auto | intros [H | (k' & H)]; discriminate]).
  - assert (Hw' : w' = handleClose (set_sockets (<[k := CLOSED]> (sockets w)) w)).
    { destruct (sockets w !! k) as [[]|]; try discriminate;
        injection Hs as <-; reflexivity. }
    subst w'.
    destruct (handleClose_state (set_sockets (<[k := CLOSED]> (sockets w)) w))
      as (Ha & Hr & Hst).
    split; [exact Ha|]. split; [auto|].
    intros _. unfold handleClose. cbn.
    destruct (reconnectAttemptsRef w <? 5); repeat split.
  - destruct t as [|i]; [discriminate|].
    destruct (timers w !! i) as [[ms []]|]; try discriminate.
    injection Hs as <-. unfold reconnectCallback.
    set (w1 := set_reconnectAttemptsRef _ _).
    destruct (connect_keeps_results w1) as (Ha & Hr & Hst).
    split; [exact Ha|]. split; [auto|].
    intros [H | (k & H)]; discriminate.
Qed.

Lemma results_survive_connection_events_witness :
  let w := handleMessages [bare "recording_started";
                           Json (resultMessage "one" "a");
                           Json (resultMessage "two" "b");
                           bare "processing"] readyWorld in
  (isRecording w = true /\ isProcessing w = true) /\
  exists w' : World,
    step (SocketClose 0) w = Some w' /\
    accumulatedResults w' = [resultMessage "one" "a"; resultMessage "two" "b"] /\
    result w' = resultMessage "two" "b" /\
    isRecording w' = false /\ isProcessing w' = false.
Proof.
  intros w.
  split; [vm_compute; split; reflexivity|].
  destruct (step (SocketClose 0) w) as [w'|] eqn:Hs;
    [|vm_compute in Hs; discriminate].
  destruct (results_survive_connection_events (SocketClose 0) w w' Hs)
    as (Ha & Hr & Hf); [discriminate|].
  destruct Hr as (Hr & _); [discriminate|].
  destruct Hf as (Hrec & _ & Hproc); [right; exists 0%nat; reflexivity|].
  exists w'. split; [reflexivity|].
  split; [rewrite Ha; vm_compute; reflexivity|].
  split; [rewrite Hr; vm_compute; reflexivity|].
  split; [exact Hrec | exact Hproc].
Defined.

(** *** Once the transport is gone *)

Lemma closeTransport_wsRef (w : World) : wsRef (closeTransport w) = None.
Proof.
  unfold closeTransport. destruct (wsRef w) as [ws|] eqn:Href; [reflexivity|].
  exact Href.
Qed.

(** X9. After [disconnect()], and after the close event of the socket the
    hook holds, the hook holds no OPEN transport; from then on audio chunks
    and stopRecording() are dropped without any change of state, and
    startRecording() and updateConfig() send nothing and only set the error
    message 'Not connected to server'. *)
Theorem nothing_sent_once_transport_gone (w : World) :
  openTransport (disconnect w) = None /\
  (forall (k : nat) (w' : World),
     wsRef w = Some k -> step (SocketClose k) w = Some w' ->
     openTransport w' = None) /\
  (openTransport w = None ->
     (forall chunks : list (list Z), sendAudioChunks chunks w = w) /\
     stopRecording w = w /\
     startRecording w = setError (Str "Not connected to server") w /\
     (forall config : js,
        updateConfig config w = setError (Str "Not connected to server") w)).
Proof.
  split; [|split].
  - rewrite disconnect_steps. unfold openTransport.
    change (match wsRef (closeTransport (cancelReconnect w)) with
            | Some ws =>
              if is_open ws (disconnect w) then Some ws else None
            | None => None
            end = None).
    rewrite closeTransport_wsRef. reflexivity.
  - intros k w' Href Hs.
    assert (Hw' : w' = handleClose (set_sockets (<[k := CLOSED]> (sockets w)) w) /\
                  (k < length (sockets w))%nat).
    { cbn [step] in Hs.
      destruct (sockets w !! k) as [s|] eqn:Hk; [|discriminate].
      apply lookup_lt_Some in Hk.
      destruct s; try discriminate; injection Hs as <-; auto. }
    destruct Hw' as [-> Hlt].
    unfold openTransport, is_open, handleClose. cbn.
    assert (Hclosed : <[k := CLOSED]> (sockets w) !! k = Some CLOSED)
      by (apply list_lookup_insert_eq; exact Hlt).
    destruct (reconnectAttemptsRef w <? 5); cbn; rewrite Href, Hclosed;
      reflexivity.
  - intros Hnone. split; [|split; [|split]].
    + intros chunks. apply sendAudioChunks_dropped. exact Hnone.
    + unfold stopRecording. rewrite Hnone. reflexivity.
    + unfold startRecording. rewrite Hnone. reflexivity.
    + intros config. unfold updateConfig. rewrite Hnone. reflexivity.
Qed.

Lemma nothing_sent_once_transport_gone_witness :
  openTransport readyWorld = Some 0%nat /\
  openTransport (disconnect readyWorld) = None /\
  (exists w' : World,
     step (SocketClose 0) readyWorld = Some w' /\ openTransport w' = None) /\
  sendAudioChunks [[1; 2]; [3]] (initial false) = initial false /\
  stopRecording (initial false) = initial false.
Proof.
  destruct (nothing_sent_once_transport_gone readyWorld) as (Hdisc & Hclose & _).
  destruct (nothing_sent_once_transport_gone (initial false)) as (_ & _ & Hgone).
  destruct (Hgone eq_refl) as (Hchunks & Hstop & _).
  split; [vm_compute; reflexivity|].
  split; [exact Hdisc|]. split.
  - destruct (step (SocketClose 0) readyWorld) as [w'|] eqn:Hs;
      [|vm_compute in Hs; discriminate].
    exists w'. split; [reflexivity|].
    apply (Hclose 0%nat w'); [vm_compute; reflexivity | exact Hs].
  - split; [apply Hchunks | exact Hstop].
Defined.

End MachineFacts.

(* ===================================================================== *)
(** * The braille cells the components draw *)
(* ===================================================================== *)

Section CellFacts.
Import Braille View.

Lemma includes_filter (f : Z -> bool) (l : list Z) (d : Z) :
  includes (List.filter f l) d = f d && includes l d.
Proof.
  unfold includes. induction l as [|a l IH]; cbn [List.filter existsb].
  - rewrite andb_false_r. reflexivity.
  - destruct (f a) eqn:Hfa; cbn [existsb]; rewrite IH.
    + destruct (Z.eqb_spec d a) as [->|Hne]; cbn.
      * rewrite Hfa. reflexivity.
      * reflexivity.
    + destruct (Z.eqb_spec d a) as [->|Hne]; cbn.
      * rewrite Hfa. reflexivity.
      * reflexivity.
Qed.

Lemma isSpace_single (c : Z) :
  isSpace [c] = (c =? 0x20) || (c =? 0xA0).
Proof.
  unfold isSpace, strEq. change (lit " ") with [0x20].
  f_equal.
  - destruct (Z.eqb_spec c 0x20) as [->|Hne].
    + apply bool_decide_eq_true_2. reflexivity.
    + apply bool_decide_eq_false_2. congruence.
  - destruct (Z.eqb_spec c 0xA0) as [->|Hne].
    + apply bool_decide_eq_true_2. reflexivity.
    + apply bool_decide_eq_false_2. congruence.
Qed.

Lemma BrailleCharacter_block (o : Z) :
  0 <= o <= 0xFF ->
  BrailleCharacter [0x2800 + o] =
  DotCell (Z.testbit o 0) (Z.testbit o 3) (Z.testbit o 1) (Z.testbit o 4)
          (Z.testbit o 2) (Z.testbit o 5).
Proof.
  intros Ho. unfold BrailleCharacter. rewrite isSpace_single.
  replace (0x2800 + o =? 0x20) with false by (symmetry; apply Z.eqb_neq; lia).
  replace (0x2800 + o =? 0xA0) with false by (symmetry; apply Z.eqb_neq; lia).
  cbn [orb]. rewrite getBrailleDots_block by exact Ho.
  rewrite !includes_filter. unfold dot_set. cbn.
  rewrite !andb_true_r. reflexivity.
Qed.

(** X10. What a braille cell shows.  A space or a no-break space is drawn as
    the faded space cell.  A code unit [0x2800 + o] of the braille block is
    drawn with dot d active exactly when bit d-1 of [o] is set, for the six
    dots 1..6 only: dots 7 and 8 are never drawn, so two patterns that differ
    only in those dots look the same.  Any other character is drawn like the
    blank pattern U+2800, with no dot active. *)
Theorem braille_cell_shows_six_dots (c : Z) :
  (c = 0x20 \/ c = 0xA0 -> BrailleCharacter [c] = SpaceCell) /\
  (forall o : Z, 0 <= o <= 0xFF -> c = 0x2800 + o ->
     BrailleCharacter [c] =
       DotCell (Z.testbit o 0) (Z.testbit o 3) (Z.testbit o 1) (Z.testbit o 4)
               (Z.testbit o 2) (Z.testbit o 5) /\
     BrailleCharacter [c] = BrailleCharacter [0x2800 + o mod 64]) /\
  (c <> 0x20 -> c <> 0xA0 -> c < 0x2800 \/ 0x28ff < c ->
     BrailleCharacter [c] = DotCell false false false false false false /\
     BrailleCharacter [c] = BrailleCharacter [0x2800]).
Proof.
  split; [|split].
  - intros Hc. unfold BrailleCharacter. rewrite isSpace_single.
    destruct Hc as [-> | ->]; reflexivity.
  - intros o Ho ->. split; [apply BrailleCharacter_block, Ho|].
    assert (Hm : 0 <= o mod 64 < 64) by (apply Z.mod_pos_bound; lia).
    rewrite (BrailleCharacter_block o Ho), (BrailleCharacter_block (o mod 64))
      by lia.
    change 64 with (2 ^ 6). rewrite !Z.mod_pow2_bits_low by lia. reflexivity.
  - intros H20 HA0 Hout.
    assert (Hcell : BrailleCharacter [c] =
                    DotCell false false false false false false).
    { unfold BrailleCharacter. rewrite isSpace_single.
      replace (c =? 0x20) with false by (symmetry; apply Z.eqb_neq; exact H20).
      replace (c =? 0xA0) with false by (symmetry; apply Z.eqb_neq; exact HA0).
      cbn [orb]. rewrite getBrailleDots_outside by exact Hout. reflexivity. }
    split; [exact Hcell|]. rewrite Hcell.
    symmetry. apply (BrailleCharacter_block 0). lia.
Qed.

Lemma braille_cell_shows_six_dots_witness :
  BrailleCharacter [0x20] = SpaceCell /\
  BrailleCharacter [0x2815] = DotCell true false false true true false /\
  BrailleCharacter [0x28D5] = BrailleCharacter [0x2815] /\
  BrailleCharacter [0x41] = BrailleCharacter [0x2800].
Proof.
  destruct (braille_cell_shows_six_dots 0x20) as (Hsp & _).
  destruct (braille_cell_shows_six_dots 0x2815) as (_ & Hlow & _).
  destruct (braille_cell_shows_six_dots 0x28D5) as (_ & Hhigh & _).
  destruct (braille_cell_shows_six_dots 0x41) as (_ & _ & Hother).
  destruct (Hlow 0x15) as (Hcell & _); [lia | reflexivity |].
  destruct (Hhigh 0xD5) as (_ & Hsame); [lia | reflexivity |].
  destruct Hother as (_ & Hblank); [lia | lia | left; lia |].
  split; [apply Hsp; left; reflexivity|].
  split; [exact Hcell|]. split; [exact Hsame | exact Hblank].
Defined.

(** X11. The braille of a segment card.  With an empty braille string the
    card says 'No braille output'.  Otherwise it draws one cell per code
    unit, in order, for the first 50 code units, and the '+N more' note
    appears exactly when the string is longer than 50, with N the number of
    code units not drawn: cells drawn plus N is the length of the string. *)
Theorem segment_card_cells (resultItem : ResultMessage) :
  match segmentBraille resultItem with
  | NoBrailleOutput => braille resultItem = []
  | BrailleCells cells more =>
    braille resultItem <> [] /\
    jslength cells = Z.min (jslength (braille resultItem)) 50 /\
    (forall (i : nat) (c : Z),
       (i < 50)%nat -> braille resultItem !! i = Some c ->
       cells !! i = Some (BrailleCharacter [c])) /\
    match more with
    | None => jslength (braille resultItem) <= 50
    | Some n =>
      50 < jslength (braille resultItem) /\
      jslength cells + n = jslength (braille resultItem)
    end
  end.
Proof.
  unfold segmentBraille.
  destruct (braille resultItem) as [|c0 s] eqn:Hb; [reflexivity|].
  set (b := c0 :: s) in *.
  assert (Hpos : (jslength b >? 0) = true).
  { unfold jslength, b. cbn [length]. apply Z.gtb_lt. lia. }
  assert (Hne : nonEmpty b = true) by reflexivity.
  rewrite Hne, Hpos. cbn [andb].
  assert (Hlen : jslength (map BrailleCharacter (take 50 (split b))) =
                 Z.min (jslength b) 50).
  { unfold jslength, split. rewrite !length_map, length_take, length_map. lia. }
  split; [discriminate|]. split; [exact Hlen|]. split.
  - intros i c Hi Hc. unfold split. subst b.
    rewrite list_lookup_fmap, lookup_take_lt by exact Hi.
    rewrite list_lookup_fmap. unfold jsstring in *.
    rewrite Hc. reflexivity.
  - destruct (Z.gtb_spec (jslength b) 50) as [Hgt|Hle]; [|exact Hle].
    split; [exact Hgt|]. rewrite Hlen. lia.
Qed.

Lemma segment_card_cells_witness :
  let resultItem :=
    {| transcribed_text := lit "ab"; braille := [0x2801; 0x2803];
       language := Some (lit "en"); table_used := lit "en-ueb-g2.ctb";
       success := true |} in
  match segmentBraille resultItem with
  | NoBrailleOutput => False
  | BrailleCells cells more =>
    jslength cells = 2 /\
    cells !! 1%nat = Some (BrailleCharacter [0x2803]) /\
    more = None
  end.
Proof.
  intros resultItem.
  pose proof (segment_card_cells resultItem) as H.
  destruct (segmentBraille resultItem) as [|cells more].
  - discriminate H.
  - destruct H as (_ & Hlen & Hcells & Hmore).
    split; [exact Hlen|]. split.
    + apply Hcells; [lia | reflexivity].
    + destruct more as [n|]; [|reflexivity].
      destruct Hmore as [Hgt _]. vm_compute in Hgt. discriminate.
Defined.

End CellFacts.

(* ===================================================================== *)
(** * The result list of SpeechToBraille *)
(* ===================================================================== *)

Section ResultListFacts.
Import Braille View.

Lemma totalCharacters_from (rs : list ResultMessage) (a : Z) :
  fold_left (fun sum r => sum + jslength (braille r)) rs a =
  a + totalCharacters rs.
Proof.
  unfold totalCharacters. revert a.
  induction rs as [|r rs IH]; intros a; cbn [fold_left].
  - lia.
  - rewrite IH, (IH (0 + _)). lia.
Qed.

Lemma totalCharacters_cons (r : ResultMessage) (rs : list ResultMessage) :
  totalCharacters (r :: rs) = jslength (braille r) + totalCharacters rs.
Proof.
  unfold totalCharacters at 1. cbn [fold_left].
  rewrite totalCharacters_from. lia.
Qed.

Lemma join_cons_cons (sep x y : jsstring) (rest : list jsstring) :
  join sep (x :: y :: rest) = x ++ sep ++ join sep (y :: rest).
Proof. reflexivity. Qed.

Lemma jslength_join (sep : jsstring) (xs : list jsstring) :
  jslength (join sep xs) =
  fold_right (fun x n => jslength x + n) 0 xs +
  jslength sep * Z.max 0 (jslength xs - 1).
Proof.
  unfold jslength. induction xs as [|x [|y rest] IH].
  - cbn. lia.
  - cbn. lia.
  - rewrite join_cons_cons, !length_app.
    cbn [fold_right length] in *. lia.
Qed.

Lemma lengths_of_braille (rs : list ResultMessage) :
  fold_right (fun x n => jslength x + n) 0 (map braille rs) = totalCharacters rs.
Proof.
  induction rs as [|r rs IH]; [reflexivity|].
  rewrite totalCharacters_cons. cbn [map fold_right]. rewrite IH. reflexivity.
Qed.

Lemma completeOutput_cells (rs : list ResultMessage) :
  map fst (completeOutput rs) =
  map (fun r => map BrailleCharacter (split (braille r))) rs.
Proof.
  unfold completeOutput. generalize (jslength rs - 1). intros bound.
  change (fst <$> imap (fun idx resultItem =>
                          (map BrailleCharacter (split (braille resultItem)),
                           Z.of_nat idx <? bound)) rs =
          (fun r => map BrailleCharacter (split (braille r))) <$> rs).
  apply list_eq. intros i.
  rewrite !list_lookup_fmap, list_lookup_imap.
  destruct (rs !! i); reflexivity.
Qed.

(** X12. The totals under the result list agree with what is drawn and
    copied.  'Total Characters' is the sum of the braille lengths of the
    accumulated results; the complete braille output draws exactly that many
    cells; and the text put on the clipboard by 'Copy All Unicode' is longer
    than that by one separating space per result after the first, so it is
    'Total Characters' plus the number of results minus one (and empty when
    there is no result). *)
Theorem totals_match_output (rs : list ResultMessage) :
  jslength (concat (map fst (completeOutput rs))) = totalCharacters rs /\
  jslength (combinedBraille rs) =
    totalCharacters rs + Z.max 0 (jslength rs - 1) /\
  (forall (r : ResultMessage), totalCharacters (rs ++ [r]) =
     totalCharacters rs + jslength (braille r)) /\
  0 <= totalCharacters rs.
Proof.
  split; [|split; [|split]].
  - rewrite completeOutput_cells.
    induction rs as [|r rs IH]; [reflexivity|].
    rewrite totalCharacters_cons. cbn [map concat].
    unfold jslength in *. rewrite length_app, !length_map.
    unfold split at 1. rewrite length_map. lia.
  - unfold combinedBraille. rewrite jslength_join, lengths_of_braille.
    unfold jslength at 2 3. rewrite length_map.
    change (jslength (lit " ")) with 1. unfold jslength. lia.
  - intros r. unfold totalCharacters. rewrite fold_left_app. cbn [fold_left].
    reflexivity.
  - induction rs as [|r rs IH]; [reflexivity|].
    rewrite totalCharacters_cons. unfold jslength. lia.
Qed.

Lemma segmentCards_lookup (rs : list ResultMessage) (i : nat) :
  segmentCards rs !! i =
  (fun item => (jslength rs - 1 - Z.of_nat i, item)) <$> reverse rs !! i.
Proof. unfold segmentCards. rewrite list_lookup_imap. reflexivity. Qed.

(** X13. The segment cards are the accumulated results newest first, each
    under its own position: there is one card per result; the card at place
    i carries index [length - 1 - i] and shows the result received at that
    index (so the card labelled 'Segment k + 1' shows the k-th result, and
    the first card is the latest result); and every result has its card. *)
Theorem segment_cards_newest_first (rs : list ResultMessage) :
  length (segmentCards rs) = length rs /\
  (forall (i : nat) (k : Z) (item : ResultMessage),
     segmentCards rs !! i = Some (k, item) ->
     k = jslength rs - 1 - Z.of_nat i /\ 0 <= k /\
     rs !! Z.to_nat k = Some item) /\
  (forall (j : nat) (item : ResultMessage),
     rs !! j = Some item ->
     segmentCards rs !! (length rs - 1 - j)%nat = Some (Z.of_nat j, item)).
Proof.
  split; [|split].
  - unfold segmentCards. rewrite length_imap, length_reverse. reflexivity.
  - intros i k item Hi. rewrite segmentCards_lookup in Hi.
    destruct (reverse rs !! i) as [item'|] eqn:Hrev; [|discriminate].
    injection Hi as <- ->.
    assert (Hlt : (i < length rs)%nat).
    { apply lookup_lt_Some in Hrev. rewrite length_reverse in Hrev. exact Hrev. }
    rewrite reverse_lookup in Hrev by exact Hlt.
    unfold jslength. split; [reflexivity|]. split; [lia|].
    replace (Z.to_nat (Z.of_nat (length rs) - 1 - Z.of_nat i))
      with (length rs - S i)%nat by lia.
    exact Hrev.
  - intros j item Hj.
    assert (Hlt : (j < length rs)%nat) by (eapply lookup_lt_Some; exact Hj).
    rewrite segmentCards_lookup, reverse_lookup by lia.
    replace (length rs - S (length rs - 1 - j))%nat with j by lia.
    rewrite Hj. cbn. unfold jslength. repeat f_equal. lia.
Qed.

Lemma segment_cards_newest_first_witness :
  let one := {| transcribed_text := lit "one"; braille := [0x2801];
                language := None; table_used := lit "t"; success := true |} in
  let two := {| transcribed_text := lit "two"; braille := [0x2803];
                language := None; table_used := lit "t"; success := true |} in
  segmentCards [one; two] !! 0%nat = Some (1, two) /\
  segmentCards [one; two] !! 1%nat = Some (0, one).
Proof.
  intros one two.
  destruct (segment_cards_newest_first [one; two]) as (_ & _ & Hcard).
  split.
  - exact (Hcard 1%nat two eq_refl).
  - exact (Hcard 0%nat one eq_refl).
Defined.

End ResultListFacts.

(* ===================================================================== *)
(** * Grouping tables, saved preferences, the language menu, translating *)
(* ===================================================================== *)

Section SettingsFacts.
Import Braille View.

(** The group a language ends up with: its tables in input order, and no
    entry at all when it has none. *)
Lemma groupTables_snoc (fallback : jsstring) (tables : list BrailleTable)
    (t : BrailleTable) :
  groupTables fallback (tables ++ [t]) =
  groupInto fallback (groupTables fallback tables) t.
Proof. unfold groupTables. rewrite fold_left_app. reflexivity. Qed.

Lemma filter_snoc {A : Type} (f : A -> bool) (l : list A) (x : A) :
  List.filter f (l ++ [x]) = List.filter f l ++ (if f x then [x] else []).
Proof. rewrite List.filter_app. reflexivity. Qed.

Lemma groupTables_groups (fallback : jsstring) (tables : list BrailleTable) :
  Forall (fun t => groupKey fallback t ∉ ObjectPrototypeKeys) tables ->
  exists groups : gmap (list Z) (list BrailleTable),
    groupTables fallback tables = Some groups /\
    forall lang : jsstring,
      groups !! lang =
      match List.filter (fun t => bool_decide (groupKey fallback t = lang)) tables with
      | [] => None
      | group => Some group
      end.
Proof.
  induction tables as [|t tables IH] using rev_ind; intros Hok.
  - exists ∅. split; [reflexivity|]. intros lang. apply lookup_empty.
  - apply Forall_app in Hok as [Hok Ht].
    apply List.Forall_inv in Ht.
    destruct (IH Hok) as (groups & Hg & Hlookup).
    rewrite groupTables_snoc, Hg. unfold groupInto.
    rewrite bool_decide_eq_false_2 by exact Ht.
    eexists. split; [reflexivity|].
    intros lang. rewrite filter_snoc.
    destruct (decide (groupKey fallback t = lang)) as [<-|Hne].
    + rewrite bool_decide_eq_true_2 by reflexivity.
      rewrite lookup_alter_eq.
      specialize (Hlookup (groupKey fallback t)).
      destruct (groups !! groupKey fallback t) as [old|] eqn:Hold.
      * rewrite Hold. cbn.
        destruct (List.filter _ tables) as [|a l]; [discriminate|].
        injection Hlookup as ->. reflexivity.
      * rewrite lookup_insert_eq. cbn.
        destruct (List.filter _ tables) as [|a l]; [reflexivity | discriminate].
    + rewrite bool_decide_eq_false_2 by exact Hne.
      rewrite app_nil_r, lookup_alter_ne by exact Hne.
      destruct (groups !! groupKey fallback t).
      * apply Hlookup.
      * rewrite lookup_insert_ne by exact Hne. apply Hlookup.
Qed.

Lemma groupTables_throws (fallback : jsstring) (tables : list BrailleTable) :
  Exists (fun t => groupKey fallback t ∈ ObjectPrototypeKeys) tables ->
  groupTables fallback tables = None.
Proof.
  induction tables as [|t tables IH] using rev_ind; intros Hbad.
  - inversion Hbad.
  - rewrite groupTables_snoc. apply Exists_app in Hbad as [Hbad|Hbad].
    + rewrite (IH Hbad). reflexivity.
    + apply Exists_cons in Hbad as [Hbad|Hbad]; [|inversion Hbad].
      unfold groupInto. destruct (groupTables fallback tables); [|reflexivity].
      rewrite bool_decide_eq_true_2 by exact Hbad. reflexivity.
Qed.

(** X14. Grouping the braille tables by language.  When no table's group
    name ([language], or the fallback when it is missing or empty) is a
    property every object inherits, the result has, for each language,
    exactly the tables of that language in their input order, and no entry
    for a language without tables: every table is in one group and one only.
    When some table's group name is an inherited property name (such as
    'constructor'), the reducer throws. *)
Theorem grouped_tables_partition (fallback : jsstring)
    (tables : list BrailleTable) :
  (Forall (fun t => groupKey fallback t ∉ ObjectPrototypeKeys) tables ->
   exists groups : gmap (list Z) (list BrailleTable),
     groupTables fallback tables = Some groups /\
     forall lang : jsstring,
       groups !! lang =
       match List.filter (fun t => bool_decide (groupKey fallback t = lang))
                         tables with
       | [] => None
       | group => Some group
       end) /\
  (Exists (fun t => groupKey fallback t ∈ ObjectPrototypeKeys) tables ->
   groupTables fallback tables = None).
Proof.
  split; [apply groupTables_groups | apply groupTables_throws].
Qed.

Lemma grouped_tables_partition_witness :
  let tbl := fun name lang =>
    {| filename := lit name; display_name := lit name;
       tableLanguage := lang; grade := None |} in
  let tables := [tbl "en-g1" (Some (lit "en")); tbl "fr-g1" (Some (lit "fr"));
                 tbl "en-g2" (Some (lit "en")); tbl "misc" None] in
  (exists groups : gmap (list Z) (list BrailleTable),
     groupedTablesSpeech tables = Some groups /\
     groups !! lit "en" =
       Some [tbl "en-g1" (Some (lit "en")); tbl "en-g2" (Some (lit "en"))] /\
     groups !! lit "unknown" = Some [tbl "misc" None] /\
     groups !! lit "de" = None) /\
  groupedTablesSpeech [tbl "odd" (Some (lit "constructor"))] = None.
Proof.
  intros tbl tables.
  destruct (grouped_tables_partition (lit "unknown") tables) as (Hgood & _).
  destruct (grouped_tables_partition (lit "unknown")
              [tbl "odd" (Some (lit "constructor"))]) as (_ & Hbad).
  split.
  - destruct Hgood as (groups & Hg & Hlookup).
    { repeat constructor; apply (bool_decide_unpack _); vm_compute; exact I. }
    exists groups. split; [exact Hg|].
    rewrite !Hlookup. repeat split.
  - apply Hbad. constructor.
    apply (bool_decide_unpack _). vm_compute. exact I.
Defined.

(** *** Saved preferences *)

Lemma stringOfBool_true (b : bool) : strEq (stringOfBool b) (lit "true") = b.
Proof. destruct b; vm_compute; reflexivity. Qed.

Lemma preference_keys_differ :
  lit "speech2braille_table" <> lit "speech2braille_language" /\
  lit "speech2braille_table" <> lit "speech2braille_haptics" /\
  lit "speech2braille_language" <> lit "speech2braille_haptics".
Proof. repeat split; intros H; vm_compute in H; discriminate. Qed.

(** X15. Saved preferences come back as they were saved: after the three
    persisting effects have run, the initialisers of a fresh mount load the
    same table, language and haptics flag, provided the table name is not
    empty and the language is not the string 'null'.  An empty table name
    comes back as the default 'en-ueb-g2.ctb', and the language 'null' comes
    back as no language (auto-detect).  With nothing saved the defaults are
    the default table, no language, and haptics on. *)
Theorem preferences_round_trip (p : Preferences)
    (storage : gmap (list Z) (list Z)) :
  (selectedTable p <> [] -> selectedLanguage p <> Some (lit "null") ->
     loadPreferences (persistPreferences p storage) = p) /\
  (selectedTable p = [] ->
     selectedTable (loadPreferences (persistPreferences p storage)) =
     lit "en-ueb-g2.ctb") /\
  (selectedLanguage p = Some (lit "null") ->
     selectedLanguage (loadPreferences (persistPreferences p storage)) = None) /\
  hapticsEnabled (loadPreferences (persistPreferences p storage)) =
    hapticsEnabled p /\
  loadPreferences ∅ =
    {| selectedTable := lit "en-ueb-g2.ctb"; selectedLanguage := None;
       hapticsEnabled := true |}.
Proof.
  destruct preference_keys_differ as (Htl & Hth & Hlh).
  destruct p as [tbl lang haptics].
  assert (Ht : getItem (lit "speech2braille_table")
                 (persistPreferences
                    {| selectedTable := tbl; selectedLanguage := lang;
                       hapticsEnabled := haptics |} storage) = Some tbl).
  { unfold getItem, persistPreferences, setItem. cbn [selectedTable].
    rewrite lookup_insert_ne by congruence.
    rewrite lookup_insert_ne by congruence.
    apply lookup_insert_eq. }
  assert (Hl : getItem (lit "speech2braille_language")
                 (persistPreferences
                    {| selectedTable := tbl; selectedLanguage := lang;
                       hapticsEnabled := haptics |} storage) =
               Some (match lang with None => lit "null" | Some l => l end)).
  { unfold getItem, persistPreferences, setItem. cbn [selectedLanguage].
    rewrite lookup_insert_ne by congruence.
    apply lookup_insert_eq. }
  assert (Hh : getItem (lit "speech2braille_haptics")
                 (persistPreferences
                    {| selectedTable := tbl; selectedLanguage := lang;
                       hapticsEnabled := haptics |} storage) =
               Some (stringOfBool haptics)).
  { unfold getItem, persistPreferences, setItem. apply lookup_insert_eq. }
  unfold loadPreferences. rewrite Ht, Hl, Hh, stringOfBool_true.
  cbn [selectedTable selectedLanguage hapticsEnabled].
  split; [|split; [|split; [|split]]].
  - intros Htbl Hlang.
    destruct tbl as [|c tbl]; [congruence|]. cbn [nonEmpty].
    destruct lang as [l|].
    + unfold strEq. rewrite bool_decide_eq_false_2 by congruence. reflexivity.
    + reflexivity.
  - intros ->. reflexivity.
  - intros ->. reflexivity.
  - reflexivity.
  - reflexivity.
Qed.

Lemma preferences_round_trip_witness :
  let p := {| selectedTable := lit "fr-bfu-g2.ctb";
              selectedLanguage := Some (lit "fr"); hapticsEnabled := false |} in
  loadPreferences (persistPreferences p ∅) = p /\
  selectedTable
    (loadPreferences
       (persistPreferences
          {| selectedTable := []; selectedLanguage := Some (lit "null");
             hapticsEnabled := true |} ∅)) = lit "en-ueb-g2.ctb" /\
  selectedLanguage
    (loadPreferences
       (persistPreferences
          {| selectedTable := []; selectedLanguage := Some (lit "null");
             hapticsEnabled := true |} ∅)) = None.
Proof.
  intros p.
  destruct (preferences_round_trip p ∅) as (Hsame & _).
  destruct (preferences_round_trip
              {| selectedTable := []; selectedLanguage := Some (lit "null");
                 hapticsEnabled := true |} ∅) as (_ & Htable & Hlang & _).
  split; [apply Hsame; discriminate|].
  split; [apply Htable; reflexivity | apply Hlang; reflexivity].
Defined.

(** *** The language menu *)

Lemma LANGUAGES_names_nonEmpty :
  Forall (fun l => nonEmpty (snd l) = true) LANGUAGES.
Proof. unfold LANGUAGES. repeat constructor. Qed.

Lemma LANGUAGES_items_select_their_code :
  Forall (fun l => onLanguageChange (itemValue (fst l)) = fst l) LANGUAGES.
Proof. unfold LANGUAGES. repeat constructor. Qed.

(** X16. The language menu and the selected language translate into each
    other without loss: the value shown for a selected language, fed back
    through the change handler, gives that language again, for no language
    (shown as 'auto') and for every language other than the string 'auto';
    every item of [LANGUAGES] selects exactly its own code when chosen, and
    the item values are pairwise distinct.  The name displayed for a detected
    language is never empty: it is the listed name, or the code itself when
    the code is not listed. *)
Theorem language_menu_round_trip (selected : option jsstring) :
  (selected <> Some (lit "auto") ->
     onLanguageChange (selectValue selected) = selected) /\
  Forall (fun l => onLanguageChange (itemValue (fst l)) = fst l) LANGUAGES /\
  NoDup (map (fun l => itemValue (fst l)) LANGUAGES) /\
  (forall lang : jsstring,
     lang <> [] ->
     detectedName lang <> [] /\
     ((forall name : jsstring, (Some lang, name) ∉ LANGUAGES) ->
      detectedName lang = lang) /\
     (forall name : jsstring,
        (Some lang, name) ∈ LANGUAGES -> detectedName lang ∈ map snd LANGUAGES)).
Proof.
  split; [|split; [exact LANGUAGES_items_select_their_code|split]].
  - intros Hne. unfold onLanguageChange, selectValue, strEq.
    destruct selected as [lang|].
    + rewrite bool_decide_eq_false_2 by congruence. reflexivity.
    + rewrite bool_decide_eq_true_2 by reflexivity. reflexivity.
  - apply (bool_decide_unpack _). vm_compute. exact I.
  - intros lang Hlang. unfold detectedName.
    destruct (List.find _ LANGUAGES) as [[code name]|] eqn:Hfind.
    + apply List.find_some in Hfind as [Hin Hcode].
      apply bool_decide_eq_true_1 in Hcode. cbn [fst] in Hcode. subst code.
      pose proof LANGUAGES_names_nonEmpty as Hnames.
      rewrite List.Forall_forall in Hnames.
      pose proof (Hnames _ Hin) as Hname. cbn [snd] in *. rewrite Hname.
      split; [destruct name; [discriminate | discriminate]|].
      split.
      * intros Hnot. exfalso. apply (Hnot name).
        apply list_elem_of_In. exact Hin.
      * intros _ _. apply list_elem_of_In.
        apply (List.in_map snd LANGUAGES (Some lang, name)). exact Hin.
    + split; [exact Hlang|]. split; [reflexivity|].
      intros name Hin. exfalso.
      apply list_elem_of_In in Hin.
      pose proof (List.find_none _ _ Hfind _ Hin) as Hno.
      cbn [fst] in Hno. rewrite bool_decide_eq_true_2 in Hno by reflexivity.
      discriminate.
Qed.

Lemma language_menu_round_trip_witness :
  onLanguageChange (selectValue (Some (lit "fr"))) = Some (lit "fr") /\
  onLanguageChange (selectValue None) = None /\
  detectedName (lit "fr") <> [] /\
  detectedName (lit "sv") = lit "sv".
Proof.
  destruct (language_menu_round_trip (Some (lit "fr"))) as (Hfr & _ & _ & Hname).
  destruct (language_menu_round_trip None) as (Hnone & _).
  destruct (Hname (lit "fr")) as (Hne & _); [discriminate|].
  destruct (Hname (lit "sv")) as (_ & Hsv & _); [discriminate|].
  split; [apply Hfr; discriminate|].
  split; [apply Hnone; discriminate|].
  split; [exact Hne|].
  apply Hsv. intros name Hin.
  apply list_elem_of_In in Hin. vm_compute in Hin.
  repeat (destruct Hin as [Hin|Hin]; [discriminate|]). exact Hin.
Defined.

(** *** The translate button *)

Lemma trimStart_nil (s : jsstring) :
  trimStart s = [] <-> Forall (fun c => isWhiteSpace c = true) s.
Proof.
  induction s as [|c s IH]; cbn [trimStart].
  - split; [constructor | reflexivity].
  - destruct (isWhiteSpace c) eqn:Hc.
    + rewrite IH. split; [intros H; constructor; assumption|].
      intros H. apply List.Forall_inv_tail in H. exact H.
    + split; [discriminate|].
      intros H. apply List.Forall_inv in H. congruence.
Qed.

Lemma trimStart_keeps (s : jsstring) :
  Exists (fun c => isWhiteSpace c = false) s ->
  Exists (fun c => isWhiteSpace c = false) (trimStart s).
Proof.
  induction s as [|c s IH]; intros H; cbn [trimStart]; [inversion H|].
  destruct (isWhiteSpace c) eqn:Hc; [|exact H].
  apply IH. apply Exists_cons in H as [H|H]; [congruence | exact H].
Qed.

Lemma Exists_reverse_1 {A : Type} (P : A -> Prop) (l : list A) :
  Exists P l -> Exists P (reverse l).
Proof.
  rewrite !Exists_exists. intros (x & Hx & HP). exists x.
  split; [apply elem_of_reverse; exact Hx | exact HP].
Qed.

Lemma trim_nonEmpty (s : jsstring) :
  nonEmpty (trim s) = true <-> Exists (fun c => isWhiteSpace c = false) s.
Proof.
  split.
  - intros Hne.
    destruct (decide (Forall (fun c => isWhiteSpace c = true) s)) as [Hall|Hnot].
    + apply trimStart_nil in Hall. unfold trim, trimEnd in Hne.
      rewrite Hall in Hne. discriminate.
    + apply not_Forall_Exists in Hnot; [|intros c; apply _].
      eapply Exists_impl; [exact Hnot|].
      intros c Hc. cbn in Hc. destruct (isWhiteSpace c); congruence.
  - intros Hex. unfold trim, trimEnd.
    apply trimStart_keeps, Exists_reverse_1, trimStart_keeps, Exists_reverse_1
      in Hex.
    destruct (reverse (trimStart (reverse (trimStart s)))); [inversion Hex|].
    reflexivity.
Qed.

(** X17. The translate button issues a request exactly when the input has at
    least one character that is not white space: an empty or blank input
    sends nothing, and otherwise the request carries the input text as typed
    (untrimmed) together with the selected table. *)
Theorem translate_needs_visible_text (inputText selected : jsstring) :
  (Forall (fun c => isWhiteSpace c = true) inputText ->
     handleTranslate inputText selected = None) /\
  (Exists (fun c => isWhiteSpace c = false) inputText ->
     handleTranslate inputText selected =
     Some {| text := inputText; table := selected |}).
Proof.
  unfold handleTranslate. split.
  - intros Hall. destruct (nonEmpty (trim inputText)) eqn:Hne; [|reflexivity].
    apply trim_nonEmpty in Hne. exfalso.
    apply Exists_exists in Hne as (c & Hc & Hws).
    rewrite Forall_forall in Hall. specialize (Hall c Hc). congruence.
  - intros Hex. apply trim_nonEmpty in Hex. rewrite Hex. reflexivity.
Qed.

Lemma translate_needs_visible_text_witness :
  handleTranslate (lit "  ") (lit "en-ueb-g2.ctb") = None /\
  handleTranslate [] (lit "en-ueb-g2.ctb") = None /\
  handleTranslate (lit " hi ") (lit "en-ueb-g2.ctb") =
    Some {| text := lit " hi "; table := lit "en-ueb-g2.ctb" |}.
Proof.
  destruct (translate_needs_visible_text (lit "  ") (lit "en-ueb-g2.ctb"))
    as (Hblank & _).
  destruct (translate_needs_visible_text [] (lit "en-ueb-g2.ctb"))
    as (Hempty & _).
  destruct (translate_needs_visible_text (lit " hi ") (lit "en-ueb-g2.ctb"))
    as (_ & Hsend).
  split; [apply Hblank; repeat constructor|].
  split; [apply Hempty; constructor|].
  apply Hsend. apply Exists_cons_tl, Exists_cons_hd. reflexivity.
Defined.

End SettingsFacts.

(* ===================================================================== *)
(** * The status the user sees after an inbound frame *)
(* ===================================================================== *)

Section ShownStatusFacts.
Import Js Hook Status.

Lemma handleMessage_isRecording (d : payload) (w : World) :
  isRecording (handleMessage d w) =
  if hasType "recording_started" d then true
  else if hasType "recording_stopped" d then false
  else isRecording w.
Proof. by_frame d; reflexivity. Qed.

Lemma hasType_exclusive (a b : string) (d : payload) :
  hasType a d = true -> a <> b -> hasType b d = false.
Proof.
  intros Ha Hne. destruct (hasType_inv _ _ Ha) as (message & -> & Hty).
  unfold hasType, frameType. cbn [JSON_parse]. rewrite Hty. cbn [is_str].
  apply String.eqb_neq. exact Hne.
Qed.

(** X18. The status shown after an inbound frame.  After [recording_started]
    it is listening, or processing if the processing flag was set: a stale
    error or result never shows.  After [result] it is success unless an
    error message is still stored, in which case it stays error; it is not
    listening even though the recording goes on.  After [processing] it is
    processing unless an error message is stored. *)
Theorem shown_status_after_frame (d : payload) (w : World) :
  (hasType "recording_started" d = true ->
     statusOf (handleMessage d w) =
     if isProcessing w then SProcessing else SListening) /\
  (hasType "result" d = true ->
     statusOf (handleMessage d w) =
     if truthy (error w) then SError else SSuccess) /\
  (hasType "processing" d = true ->
     statusOf (handleMessage d w) =
     if truthy (error w) then SError else SProcessing).
Proof.
  unfold statusOf.
  rewrite handleMessage_error, handleMessage_isProcessing, handleMessage_result,
    handleMessage_isRecording.
  split; [|split]; intros Hd.
  - rewrite Hd, (hasType_exclusive _ "processing" d Hd),
      (hasType_exclusive _ "result" d Hd), (hasType_exclusive _ "error" d Hd)
      by discriminate.
    rewrite orb_true_r. cbn. destruct (isProcessing w); reflexivity.
  - rewrite (hasType_exclusive _ "ready" d Hd),
      (hasType_exclusive _ "recording_started" d Hd),
      (hasType_exclusive _ "error" d Hd),
      (hasType_exclusive _ "processing" d Hd) by discriminate.
    destruct (hasType_inv _ _ Hd) as (message & -> & Hty).
    destruct (typed_message_is_object message "result" Hty) as (fs & ->).
    unfold resultsOf. cbn [List.filter]. rewrite Hd. cbn.
    unfold status. destruct (truthy (error w)); reflexivity.
  - rewrite Hd, (hasType_exclusive _ "ready" d Hd),
      (hasType_exclusive _ "recording_started" d Hd),
      (hasType_exclusive _ "error" d Hd) by discriminate.
    cbn [orb]. unfold status. destruct (truthy (error w)); reflexivity.
Qed.

Lemma shown_status_after_frame_witness :
  let failed := handleMessage (withMessage "error" "model failed") readyWorld in
  statusOf failed = SError /\
  statusOf (handleMessage (Json (resultMessage "hello" "h")) failed) = SError /\
  statusOf (handleMessage (bare "recording_started") failed) = SListening /\
  statusOf (handleMessage (Json (resultMessage "hello" "h"))
              (handleMessage (bare "recording_started") failed)) = SSuccess.
Proof.
  intros failed.
  destruct (shown_status_after_frame (Json (resultMessage "hello" "h")) failed)
    as (_ & Hres & _).
  destruct (shown_status_after_frame (bare "recording_started") failed)
    as (Hstart & _).
  destruct (shown_status_after_frame (Json (resultMessage "hello" "h"))
              (handleMessage (bare "recording_started") failed))
    as (_ & Hres2 & _).
  split; [vm_compute; reflexivity|].
  split; [rewrite (Hres eq_refl); vm_compute; reflexivity|].
  split; [rewrite (Hstart eq_refl); vm_compute; reflexivity|].
  rewrite (Hres2 eq_refl). vm_compute. reflexivity.
Defined.

End ShownStatusFacts.
